(** * Quirk: control masks and circuit statistics

    A shallow embedding of [src/circuit/Controls.js] and of the query
    surface, the density scattering, the custom-statistics bookkeeping and
    the fallback boundary of [src/circuit/CircuitStats.js], with the
    display's reading of the final state and the reverse-bits gate family,
    together with the properties the specification states about them and
    further properties read off the code.

    JavaScript numbers that the code uses as integers are modelled as [Z];
    the 32-bit wrap-around of the bitwise operators is written out
    ([toInt32]).  Values stored in [Float32Array]s and plain numbers are
    IEEE values ([spec_float]), so that NaN is a value one can point at. *)

From Stdlib Require Import ZArith Lia Bool List Ascii.
From Stdlib Require Import Floats.SpecFloat.
From stdpp Require Import base list strings gmap pretty.

#[local] Open Scope Z_scope.

(** ** JavaScript 32-bit integer operators *)

Module JS.

(** ECMAScript [ToInt32] on an integral number. *)
Definition toInt32 (x : Z) : Z :=
  let int32bit := Z.modulo x (2 ^ 32) in
  if 2 ^ 31 <=? int32bit then int32bit - 2 ^ 32 else int32bit.

(** ECMAScript [ToUint32] on an integral number. *)
Definition toUint32 (x : Z) : Z := Z.modulo x (2 ^ 32).

(** The shift count of [<<] and [>>]: [ToUint32(count) & 0x1F]. *)
Definition shiftCount (n : Z) : Z := Z.land (toUint32 n) 31.

(** [a & b] *)
Definition and (a b : Z) : Z := toInt32 (Z.land (toInt32 a) (toInt32 b)).
(** [a | b] *)
Definition or (a b : Z) : Z := toInt32 (Z.lor (toInt32 a) (toInt32 b)).
(** [a ^ b] *)
Definition xor (a b : Z) : Z := toInt32 (Z.lxor (toInt32 a) (toInt32 b)).
(** [~a] *)
Definition not (a : Z) : Z := toInt32 (Z.lnot (toInt32 a)).
(** [a << n] *)
Definition shl (a n : Z) : Z := toInt32 (Z.shiftl (toInt32 a) (shiftCount n)).
(** [a >> n] (sign-propagating) *)
Definition shr (a n : Z) : Z := toInt32 (Z.shiftr (toInt32 a) (shiftCount n)).

(** A number that already is a signed 32-bit integer. *)
Definition isInt32 (x : Z) : Prop := - 2 ^ 31 <= x < 2 ^ 31.

End JS.

(** ** Values, errors and completions *)

(** The stored fields of a [Controls] object. *)
Record Controls := mkControls {
  inclusionMask : Z;
  desiredValueMask : Z
}.

(** A column index: an integer or [Infinity] (the display code asks for
    the column "after everything" with [Infinity]). *)
Inductive index : Type :=
| Finite (i : Z)
| Infinity.

(** One constructor per [throw] site of the modelled code (a
    [DetailedError] with its message and detail object), plus the
    [TypeError] JavaScript raises on a property access on [undefined]. *)
Inductive Error : Type :=
| DesiredUnincludedBits (inclusionMask desiredValueMask : Z)
    (* "Desired un-included bits" *)
| OutOfRange (bitIndex : Z)
    (* "Out of range" *)
| ContradictoryControls (this other : Controls)
    (* "Contradictory controls." *)
| BadWireIndex (wireIndex : Z) (colIndex : index)
    (* "Bad wireIndex" *)
| AppliedErrorInjectionGate (qubit : Z)
    (* "Applied an Error Injection Gate" *)
| TypeError.

(** The outcome of a call: a returned value or a thrown exception. *)
Inductive completion (A : Type) : Type :=
| Return (a : A)
| Throw (e : Error).
Arguments Return {A} a.
Arguments Throw {A} e.

#[global] Instance completion_ret : MRet completion := fun A a => Return a.

#[global] Instance completion_bind : MBind completion := fun A B k c =>
  match c with
  | Return a => k a
  | Throw e => Throw e
  end.

(** ** Controls *)

Module Controls.

(** [(desiredValueMask & ~inclusionMask) !== 0], the constructor's guard. *)
Definition desiresUnincluded (inclusionMask desiredValueMask : Z) : bool :=
  negb (JS.and desiredValueMask (JS.not inclusionMask) =? 0).

(** [new Controls(inclusionMask, desiredValueMask)] *)
Definition new (inclusionMask desiredValueMask : Z) : completion Controls :=
  if desiresUnincluded inclusionMask desiredValueMask
  then Throw (DesiredUnincludedBits inclusionMask desiredValueMask)
  else Return (mkControls inclusionMask desiredValueMask).

(** [Controls.bit(bitIndex, desiredValue)] *)
Definition bit (bitIndex : Z) (desiredValue : bool) : completion Controls :=
  if bitIndex <? 0
  then Throw (OutOfRange bitIndex)
  else new (JS.shl 1 bitIndex) (if desiredValue then JS.shl 1 bitIndex else 0).

(** [this.isEqualTo(other)], for [other] a [Controls]. *)
Definition isEqualTo (this other : Controls) : bool :=
  (inclusionMask this =? inclusionMask other) &&
  (desiredValueMask this =? desiredValueMask other).

(** [this.allowsState(stateIndex)] *)
Definition allowsState (this : Controls) (stateIndex : Z) : bool :=
  JS.and (inclusionMask this) stateIndex =? desiredValueMask this.

(** [this.desiredValueFor(bitIndex)]; [None] is [null]. *)
Definition desiredValueFor (this : Controls) (bitIndex : Z) : option bool :=
  if JS.and (inclusionMask this) (JS.shl 1 bitIndex) =? 0
  then None
  else Some (negb (JS.and (desiredValueMask this) (JS.shl 1 bitIndex) =? 0)).

(** The guard of [and]:
    [(other.desiredValueMask & this.inclusionMask) !==
     (this.desiredValueMask & other.inclusionMask)]. *)
Definition contradicts (this other : Controls) : bool :=
  negb (JS.and (desiredValueMask other) (inclusionMask this) =?
        JS.and (desiredValueMask this) (inclusionMask other)).

(** [this.and(other)] *)
Definition and (this other : Controls) : completion Controls :=
  if contradicts this other
  then Throw (ContradictoryControls this other)
  else new (JS.or (inclusionMask this) (inclusionMask other))
           (JS.or (desiredValueMask this) (desiredValueMask other)).

(** [Controls.NONE = new Controls(0, 0)]; the constructor accepts it
    ([NONE_constructed] below). *)
Definition NONE : Controls := mkControls 0 0.

(** The class invariant, as the constructor tests it. *)
Definition invariant (c : Controls) : Prop :=
  JS.and (desiredValueMask c) (JS.not (inclusionMask c)) = 0.

(** Both fields hold signed 32-bit integers (the documented [!int]). *)
Definition intMasks (c : Controls) : Prop :=
  JS.isInt32 (inclusionMask c) /\ JS.isInt32 (desiredValueMask c).

(** [this.includedBitCount()]; [Util.numberOfSetBits] (of
    [src/base/Util.js]) is a parameter. *)
Definition includedBitCount (numberOfSetBits : Z -> Z) (this : Controls) : index :=
  if inclusionMask this <? 0
  then Infinity
  else Finite (numberOfSetBits (inclusionMask this)).

(** [Seq.naturals().takeWhile(p)], forced: the naturals from [i] on while
    [p] holds.  [None] when [fuel] steps reach no natural that fails [p]
    (the iteration is still running). *)
Fixpoint naturalsWhile (fuel : nat) (p : Z -> bool) (i : Z) : option (list Z) :=
  match fuel with
  | O => None
  | S fuel => if p i then cons i <$> naturalsWhile fuel p (i + 1) else Some []
  end.

(** [e => e === null ? "_" : e ? "1" : "0"] *)
Definition describeBit (e : option bool) : string :=
  match e with
  | None => "_"
  | Some true => "1"
  | Some false => "0"
  end%string.

(** [this.toString()], run for at most [fuel] steps of the [takeWhile]. *)
Definition toString (fuel : nat) (this : Controls) : option string :=
  if inclusionMask this =? 0 then Some "No Controls"%string
  else
    indices ← naturalsWhile fuel (fun i => JS.shl 1 i <=? inclusionMask this) 0;
    Some ("Controls: ...__"
          +:+ String.concat "" (reverse (describeBit <$> (desiredValueFor this <$> indices)))).

End Controls.

(** ** Numbers, arrays and matrices *)

(** A JavaScript number, or an element of a typed array: sign, mantissa and
    exponent.  A double is held in the form of binary64 and an element of a
    [Float32Array] in the form of binary32 (24 mantissa bits, or fewer at
    the exponent -149). *)
Definition number : Type := spec_float.

Definition NaN : number := S754_nan.
(** [+0], the content of a fresh [Float32Array]. *)
Definition zero : number := S754_zero false.
(** [1], in single precision. *)
Definition one : number := Eval cbv in SFone 24 128.

(** The number of binary digits of a positive mantissa. *)
Definition digits (m : Z) : Z := Z.log2 m + 1.

(** The mantissa of [m * 2^e] at the exponent [fexp], to the nearest
    integer and to the even one of two nearest. *)
Definition roundedMantissa (m e fexp : Z) : Z :=
  if fexp <=? e then Z.shiftl m (e - fexp)
  else
    let k := fexp - e in
    let q := Z.shiftr m k in
    let r := Z.land m (Z.ones k) in
    let half := 2 ^ (k - 1) in
    if (half <? r) || ((r =? half) && Z.odd q) then q + 1 else q.

(** What storing a number into a [Float32Array] keeps of it, which is what
    [new Float32Array(source)] does to every element of [source] (and
    [Math.fround] to its argument): the nearest single-precision value,
    ties to even; a magnitude of [2^128 - 2^103] or more becomes an
    infinity and one of [2^-150] or less a zero of the same sign. *)
Definition fround (x : number) : number :=
  match x with
  | S754_finite s m e =>
      let fexp := Z.max (digits (Zpos m) + e - 24) (-149) in
      let q := roundedMantissa (Zpos m) e fexp in
      let '(q, e') := if q =? 2 ^ 24 then (2 ^ 23, fexp + 1) else (q, fexp) in
      match q with
      | Zpos m' => if e' <=? 104 then S754_finite s m' e' else S754_infinity s
      | _ => S754_zero s
      end
  | _ => x
  end.

(** A number that a [Float32Array] holds as it is. *)
Definition isSingle (x : number) : Prop := fround x = x.

(** The form of a single-precision value: the exponent is the one its
    number of digits asks for, and at most 104. *)
Definition canonical32 (x : number) : Prop :=
  match x with
  | S754_finite _ m e => e = Z.max (digits (Zpos m) + e - 24) (-149) /\ e <= 104
  | _ => True
  end.

(** [array[i]] for an integral [i]; [None] is [undefined]. *)
Definition at_index {A} (array : list A) (i : Z) : option A :=
  if i <? 0 then None else array !! Z.to_nat i.

(** [array.length] *)
Definition len {A} (array : list A) : Z := Z.of_nat (length array).

(** Modelled from the spec: [src/math/Matrix.js] is not among the sources.
    A matrix is what [CircuitStats.js] uses of it: [width()], [height()]
    and [rawBuffer()], a typed array ([Float32Array] or [Float64Array])
    of interleaved real and imaginary parts in which the entry at ([row], [col]) starts at
    [(row*width + col)*2] (the indexing of
    [decohereMeasuredBitsInDensityMatrix]).  [new Matrix(w, h, buf)] is
    [mkMatrix w h buf]. *)
Record Matrix : Type := mkMatrix {
  width : Z;
  height : Z;
  rawBuffer : list number
}.

Module Matrix.

(** Modelled from the spec: [Matrix.zero(width, height)], the matrix of
    [width*height] zero entries. *)
Definition zero (width height : Z) : Matrix :=
  mkMatrix width height (replicate (Z.to_nat (width * height * 2)) zero).

(** Modelled from the spec: [m.times(NaN)], which the spec calls a NaN
    matrix (an all-NaN vector): every stored float becomes NaN. *)
Definition timesNaN (m : Matrix) : Matrix :=
  mkMatrix (width m) (height m) ((fun _ => NaN) <$> rawBuffer m).

(** The real and imaginary part stored for the entry at ([row], [col]). *)
Definition entry (m : Matrix) (row col : Z) : option number * option number :=
  let k := (row * width m + col) * 2 in
  (at_index (rawBuffer m) k, at_index (rawBuffer m) (k + 1)).

(** A square matrix of side [n] with a buffer of the matching length. *)
Definition square (m : Matrix) (n : Z) : Prop :=
  width m = n /\ height m = n /\ len (rawBuffer m) = n * n * 2.

(** A matrix whose buffer holds single-precision values, as a
    [Float32Array] does. *)
Definition singlePrecision (m : Matrix) : Prop :=
  Forall isSingle (rawBuffer m).

End Matrix.

(** An entry as a [Float32Array] copy of its buffer reads it back. *)
Definition froundEntry (e : option number * option number)
  : option number * option number :=
  (fround <$> e.1, fround <$> e.2).

(** The density matrix of a qubit that is off: [[1,0],[0,0]], built as
    [buf = new Float32Array(2*2*2); buf[0] = 1; new Matrix(2, 2, buf)]. *)
Definition offDensity : Matrix :=
  mkMatrix 2 2 (<[0%nat := one]> (replicate (Z.to_nat (2 * 2 * 2)) zero)).

(** [Matrix.zero(2, 2).times(NaN)] *)
Definition nanDensity : Matrix := Matrix.timesNaN (Matrix.zero 2 2).

(** ** Circuit definitions *)

(** Modelled from the spec: [src/circuit/CircuitDefinition.js] is not among
    the sources.  A circuit has [numWires] and an ordered sequence of
    columns; a column holds per wire an empty slot ([None]) or the stable
    string identifier of a gate. *)
Record CircuitDefinition : Type := mkCircuitDefinition {
  numWires : Z;
  columns : list (list (option string))
}.

(** The custom shader of the error injection gate
    ([src/gates/Debug_ErrorInjectionGate.js]):
    [(inputTex, controlTex, qubit) => { throw ... }]. *)
Definition ErrorInjectionGate_shader {Tex : Type}
    (inputTex controlTex : Tex) (qubit : Z) : completion Tex :=
  Throw (AppliedErrorInjectionGate qubit).

(** Its serialized id. *)
Definition ErrorInjectionGate_id : string := "__error__".

(** ** CircuitStats *)

Section CircuitStats.

(** The type of processed custom statistics ([*] in the source). *)
Context {Custom : Type}.

Record CircuitStats : Type := mkCircuitStats {
  circuitDefinition : CircuitDefinition;
  time : number;
  _qubitDensities : list (list Matrix);
  finalState : Matrix;
  postSelectionSurvivalRate : number;
  _customStatsProcessed : gmap string Custom
}.

(** [colIndex < 0] *)
Definition index_negative (colIndex : index) : bool :=
  match colIndex with
  | Finite i => i <? 0
  | Infinity => false
  end.

(** [Math.min(colIndex, bound)] for an integral [bound]. *)
Definition index_min (colIndex : index) (bound : Z) : Z :=
  match colIndex with
  | Finite i => Z.min i bound
  | Infinity => bound
  end.

(** [this.qubitDensityMatrix(wireIndex, colIndex)]; a returned [None]
    would be [undefined]. *)
Definition qubitDensityMatrix (this : CircuitStats) (wireIndex : Z) (colIndex : index)
  : completion (option Matrix) :=
  if wireIndex <? 0 then Throw (BadWireIndex wireIndex colIndex)
  else if index_negative colIndex
          || (numWires (circuitDefinition this) <=? wireIndex)
  then Return (Some offDensity)
  else
    let col := index_min colIndex (len (_qubitDensities this) - 1) in
    if col <? 0 then Return (Some nanDensity)
    else
      match at_index (_qubitDensities this) col with
      | None => Throw TypeError
      | Some densities =>
          if len densities <=? wireIndex then Return (Some nanDensity)
          else Return (at_index densities wireIndex)
      end.

(** [this.controlledWireProbabilityJustAfter(wireIndex, colIndex)]; a
    returned [None] would be [undefined]. *)
Definition controlledWireProbabilityJustAfter
    (this : CircuitStats) (wireIndex : Z) (colIndex : index)
  : completion (option number) :=
  m ← qubitDensityMatrix this wireIndex colIndex;
  match m with
  | None => Throw TypeError
  | Some m => Return (at_index (rawBuffer m) 6)
  end.

(** [this.withTime(time)] *)
Definition withTime (this : CircuitStats) (time : number) : CircuitStats :=
  mkCircuitStats
    (circuitDefinition this)
    time
    (_qubitDensities this)
    (finalState this)
    (postSelectionSurvivalRate this)
    (_customStatsProcessed this).

(** *** The fallback boundary *)

(** The collaborators of [CircuitStats.fromCircuitAtTime]: the computation
    proper ([_fromCircuitAtTime_noFallback], which runs on
    [CircuitTextures] and the WebGL shaders) is taken as any function that
    returns a snapshot or throws; [Serializer.toJson] as any function; a
    call of [notifyAboutRecoveryFromUnexpectedError] is recorded with its
    arguments. *)
Context {Json : Type}.
Variable _fromCircuitAtTime_noFallback :
  CircuitDefinition -> number -> completion CircuitStats.
Variable Serializer_toJson : CircuitDefinition -> Json.

(** An argument list of [notifyAboutRecoveryFromUnexpectedError]. *)
Record Notification : Type := mkNotification {
  recovery : string;
  context : Json;
  cause : Error
}.

(** The snapshot built in the [catch] block. *)
Definition nanStats (circuitDefinition : CircuitDefinition) (time : number)
  : CircuitStats :=
  mkCircuitStats
    circuitDefinition
    time
    []
    (Matrix.timesNaN (Matrix.zero 1 (JS.shl 1 (numWires circuitDefinition))))
    NaN
    ∅.

(** [CircuitStats.fromCircuitAtTime(circuitDefinition, time)]: the
    notifications sent and the completion of the call. *)
Definition fromCircuitAtTime (circuitDefinition : CircuitDefinition) (time : number)
  : list Notification * completion CircuitStats :=
  match _fromCircuitAtTime_noFallback circuitDefinition time with
  | Return stats => ([], Return stats)
  | Throw ex =>
      ([mkNotification
          "Defaulted to NaN results. Computing circuit values failed."
          (Serializer_toJson circuitDefinition)
          ex],
       Return (nanStats circuitDefinition time))
  end.

End CircuitStats.

Arguments CircuitStats Custom : clear implicits.
Arguments Notification Json : clear implicits.

(** The slot ([col], [wire]) of the stored densities, if it was computed. *)
Definition storedDensity {Custom} (s : CircuitStats Custom) (col wire : Z)
  : option Matrix :=
  densities ← at_index (_qubitDensities s) col; at_index densities wire.

(** A snapshot to evaluate the queries on: two wires, one computed column
    in which only wire 0 has a density. *)
Definition sampleStats : CircuitStats unit :=
  mkCircuitStats (mkCircuitDefinition 2 [[None; None]]) zero
                 [[offDensity]] (Matrix.zero 1 4) one ∅.

(** ** Decoherence of measured bits *)

(** The body of the two loops: zero the entry at ([row], [col]) when
    [((row ^ col) & isMeasuredMask) !== 0]. *)
Definition decohereEntry (n isMeasuredMask : Z) (row : Z) (buf : list number) (col : Z)
  : list number :=
  if negb (JS.and (JS.xor row col) isMeasuredMask =? 0)
  then
    let k := (row * n + col) * 2 in
    <[Z.to_nat (k + 1) := zero]> (<[Z.to_nat k := zero]> buf)
  else buf.

(** [for (let col = 0; col < n; col++) ...] *)
Definition decohereRow (n isMeasuredMask : Z) (buf : list number) (row : Z)
  : list number :=
  foldl (decohereEntry n isMeasuredMask row) buf (seqZ 0 n).

(** [CircuitStats.decohereMeasuredBitsInDensityMatrix(densityMatrix, isMeasuredMask)] *)
Definition decohereMeasuredBitsInDensityMatrix
    (densityMatrix : Matrix) (isMeasuredMask : Z) : Matrix :=
  if isMeasuredMask =? 0 then densityMatrix
  else
    (* let buf = new Float32Array(densityMatrix.rawBuffer()); *)
    let buf := fround <$> rawBuffer densityMatrix in
    let n := width densityMatrix in
    mkMatrix n n (foldl (decohereRow n isMeasuredMask) buf (seqZ 0 n)).

(** The call [decohereMeasuredBitsInDensityMatrix(rawMatrices[used], mask)]
    on an array element that may be [undefined] (an index past the end):
    with the mask 0 the argument is returned as it is, otherwise
    [undefined.rawBuffer()] raises a [TypeError]. *)
Definition decohereElement (element : option Matrix) (isMeasuredMask : Z)
  : completion (option Matrix) :=
  match element with
  | Some m => Return (Some (decohereMeasuredBitsInDensityMatrix m isMeasuredMask))
  | None => if isMeasuredMask =? 0 then Return None else Throw TypeError
  end.

(** The callback of [scatterAndDecohereDensities] mapped over the rows in
    order, with the counter [used] it advances ([rawMatrices[used++]]). *)
Fixpoint scatterRows (rawMatrices : list Matrix)
    (qubitSpan isMeasuredMask hasDisplayMask : Z) (nanMat : Matrix)
    (rows : list Z) (used : Z) : completion (list (option Matrix)) :=
  match rows with
  | [] => Return []
  | row :: rest =>
      if JS.and hasDisplayMask (JS.shl 1 row) =? 0
      then
        out ← scatterRows rawMatrices qubitSpan isMeasuredMask hasDisplayMask
                nanMat rest used;
        Return (Some nanMat :: out)
      else
        m ← decohereElement (at_index rawMatrices used)
              (JS.and (JS.shr isMeasuredMask row) (JS.shl 1 qubitSpan - 1));
        out ← scatterRows rawMatrices qubitSpan isMeasuredMask hasDisplayMask
                nanMat rest (used + 1);
        Return (m :: out)
  end.

(** [CircuitStats.scatterAndDecohereDensities(rawMatrices, numWires,
    qubitSpan, isMeasuredMask, hasDisplayMask)];
    [Seq.range(count)] is the rows [0 .. count-1]. *)
Definition scatterAndDecohereDensities (rawMatrices : list Matrix)
    (numWires qubitSpan isMeasuredMask hasDisplayMask : Z)
  : completion (list (option Matrix)) :=
  let nanMat :=
    Matrix.timesNaN (Matrix.zero (JS.shl 1 qubitSpan) (JS.shl 1 qubitSpan)) in
  scatterRows rawMatrices qubitSpan isMeasuredMask hasDisplayMask nanMat
    (seqZ 0 (numWires - qubitSpan + 1)) 0.

(** [(hasDisplayMask & (1 << row)) !== 0]: the wire [row] has a display. *)
Definition hasDisplay (hasDisplayMask row : Z) : bool :=
  negb (JS.and hasDisplayMask (JS.shl 1 row) =? 0).

(** The number of rows before [row] that have a display: the value of the
    counter [used] when the callback reaches [row]. *)
Definition displaysBefore (hasDisplayMask row : Z) : Z :=
  Z.of_nat (length (List.filter (hasDisplay hasDisplayMask) (seqZ 0 row))).

(** ** Custom statistics *)

(** A string without the character ":". *)
Fixpoint noColon (s : string) : Prop :=
  match s with
  | EmptyString => True
  | String a s => a <> ":"%char /\ noColon s
  end.

(** A number that [+] writes in plain decimal digits. *)
Definition printable (n : Z) : Prop := Z.abs n < 10 ^ 21.

(** An entry of [customStatsMap]: [{col, row, out}]. *)
Record StatSlot : Type := mkStatSlot {
  slotCol : Z;
  slotRow : Z;
  slotOut : Z
}.

Section CustomStats.

Context {Tex Raw Custom : Type}.

(** The conversion of an integral number to a string that [+] performs:
    decimal digits, with a leading "-" below zero, for a magnitude below
    [10^21]; from there on JavaScript switches to exponent notation, which
    is left as a parameter. *)
Variable exponentNotation : Z -> string.

Definition numberToString (n : Z) : string :=
  if Z.abs n <? 10 ^ 21 then pretty n else exponentNotation n.

(** [col+":"+row] *)
Definition slotKey (col row : Z) : string :=
  numberToString col +:+ ":" +:+ numberToString row.

(** [this.customStatsForSlot(col, row)]; [None] is [undefined]. *)
Definition customStatsForSlot (this : CircuitStats Custom) (col row : Z)
  : option Custom :=
  _customStatsProcessed this !! slotKey col row.

(** What the bookkeeping of [_fromCircuitAtTime_noFallback] is handed:
    [circuitDefinition.customStatRowsInCol(col)]; the texture that
    [evaluatePipelineWithIntermediateCleanup] yields for the gate in a
    slot; the read of one texture by [mergedReadFloats]; and
    [gateInSlot(col, row).customStatPostProcesser || (e => e)] applied to
    the read value (which is [undefined] for an index outside
    [pixelData.customStats]), the circuit and the slot. *)
Variable customStatRowsInCol : Z -> list Z.
Variable evaluateStat : Z -> Z -> Tex.
Variable readFloats : Tex -> Raw.
Variable postProcess : Z -> Z -> option Raw -> Custom.

(** The loop over [customStatRowsInCol(col)] in the callback of a column:
    [customStatsMap.push({col, row, out: customStats.length})] and
    [customStats.push(...)]. *)
Definition defineColumnStats (acc : list StatSlot * list Tex) (col : Z)
  : list StatSlot * list Tex :=
  foldl (fun acc row =>
           (acc.1 ++ [mkStatSlot col row (len acc.2)],
            acc.2 ++ [evaluateStat col row]))
        acc (customStatRowsInCol col).

(** The two arrays that hold the slots [ps], in order. *)
Definition statsOf (ps : list (Z * Z)) : list StatSlot * list Tex :=
  (imap (fun i p => mkStatSlot p.1 p.2 (Z.of_nat i)) ps,
   (fun p => evaluateStat p.1 p.2) <$> ps).

(** The two arrays after the columns [0 .. numCols-1]. *)
Definition defineStats (numCols : Z) : list StatSlot * list Tex :=
  foldl defineColumnStats ([], []) (seqZ 0 numCols).

(** The loop that fills [customStatsProcessed]. *)
Definition processCustomStats (customStatsMap : list StatSlot) (pixels : list Raw)
  : gmap string Custom :=
  foldl (fun processed slot =>
           <[slotKey (slotCol slot) (slotRow slot) :=
               postProcess (slotCol slot) (slotRow slot)
                           (at_index pixels (slotOut slot))]> processed)
        ∅ customStatsMap.

(** The custom statistics of the snapshot: define, read, process. *)
Definition customStatsProcessedFor (numCols : Z) : gmap string Custom :=
  let defined := defineStats numCols in
  processCustomStats defined.1 (readFloats <$> defined.2).

End CustomStats.

(** ** The display's reading of a snapshot ([DisplayedCircuit]) *)

(** [this.importantWireCount()]; [Config.MIN_WIRE_COUNT] and
    [CircuitDefinition.minimumRequiredWireCount] are parameters. *)
Definition importantWireCount (MIN_WIRE_COUNT : Z)
    (minimumRequiredWireCount : CircuitDefinition -> Z)
    (circuitDefinition : CircuitDefinition) : Z :=
  Z.max (numWires circuitDefinition - 1)
        (Z.max MIN_WIRE_COUNT (minimumRequiredWireCount circuitDefinition)).

(** [typedArray.slice(0, end)]: a negative [end] counts from the end of
    the array, and the range is clamped to the array. *)
Definition sliceTo {A} (array : list A) (e : Z) : list A :=
  let final := if e <? 0 then Z.max (len array + e) 0 else Z.min e (len array) in
  take (Z.to_nat final) array.

(** [this._outputStateAsMatrix(stats)], where [displayed] is
    [this.circuitDefinition]; [Math.floor(numWire/2)] is [numWire / 2] and
    [Math.ceil(numWire/2)] is [(numWire + 1) / 2]. *)
Definition _outputStateAsMatrix {Custom} (MIN_WIRE_COUNT : Z)
    (minimumRequiredWireCount : CircuitDefinition -> Z)
    (displayed : CircuitDefinition) (stats : CircuitStats Custom) : Matrix :=
  let numWire :=
    importantWireCount MIN_WIRE_COUNT minimumRequiredWireCount displayed in
  let buf := rawBuffer (finalState stats) in
  let buf :=
    if negb (numWires (circuitDefinition stats) =? numWire)
    then sliceTo buf (JS.shl 2 numWire)
    else buf in
  let colWires := numWire / 2 in
  let rowWires := (numWire + 1) / 2 in
  let colCount := JS.shl 1 colWires in
  let rowCount := JS.shl 1 rowWires in
  mkMatrix colCount rowCount buf.

(** ** The reverse-bits gate family *)

(** The pairs of wires that the custom shaders of the member of span
    [span] swap, for a gate whose top wire is [bit]:
    [Seq.range(Math.floor(span/2)).map(i => ... swap(val, bit + i,
    bit + span - i - 1, con))]. *)
Definition reverseBitsSwaps (span bit : Z) : list (Z * Z) :=
  (fun i => (bit + i, bit + span - i - 1)) <$> seqZ 0 (span / 2).

(** Modelled from the spec: [CircuitShaders.swap] swaps two qubit
    positions; this is where a wire ends up. *)
Definition swapWires (pair : Z * Z) (wire : Z) : Z :=
  if wire =? pair.1 then pair.2
  else if wire =? pair.2 then pair.1
  else wire.

(** Where a wire ends up after the shaders ran in order. *)
Definition afterSwaps (swaps : list (Z * Z)) (wire : Z) : Z :=
  foldl (fun w pair => swapWires pair w) wire swaps.

(** Whether the loop body at ([row], [col]) writes buffer position [p]. *)
Definition zeroes (n isMeasuredMask : Z) (p : nat) (row col : Z) : bool :=
  negb (JS.and (JS.xor row col) isMeasuredMask =? 0)
  && ((p =? Z.to_nat ((row * n + col) * 2))%nat
      || (p =? Z.to_nat ((row * n + col) * 2 + 1))%nat).

(** A computation that fails the way a circuit holding the error injection
    gate on wire 0 does: its shader runs before any result exists. *)
Definition errorInjected (circuitDefinition : CircuitDefinition) (time : number)
  : completion (CircuitStats unit) :=
  _ ← ErrorInjectionGate_shader () () 0;
  Return (mkCircuitStats circuitDefinition time [] (Matrix.zero 1 1) one ∅).

(** [1/2] in single precision, and the density matrix of a qubit in the
    state |+>: all four entries are 1/2. *)
Definition half : number := S754_finite false 8388608 (-24).
Definition plusDensity : Matrix :=
  mkMatrix 2 2 [half; zero; half; zero; half; zero; half; zero].

(** The doubles [0.1] and [0.9], the number [0.1] as single precision has
    it ([0.10000000149011612]), and a density matrix of doubles,
    [[0.1, 0], [0, 0.9]], as [new Matrix(2, 2, new Float64Array(...))]
    holds it. *)
Definition tenth : number := S754_finite false 7205759403792794 (-56).
Definition nineTenths : number := S754_finite false 8106479329266893 (-53).
Definition tenthSingle : number := S754_finite false 13421773 (-27).
Definition tenthDensity : Matrix :=
  mkMatrix 2 2 [tenth; zero; zero; zero; zero; zero; nineTenths; zero].

(* ===================================================================== *)
(** * Properties *)
(* ===================================================================== *)

(** ** Facts about the 32-bit operators *)

Module JSFacts.
Import JS.

Lemma pow32 : 2 ^ 32 = 4294967296. Proof. reflexivity. Qed.
Lemma pow31 : 2 ^ 31 = 2147483648. Proof. reflexivity. Qed.

Lemma toInt32_range x : isInt32 (toInt32 x).
Proof.
  unfold isInt32, toInt32. cbv zeta.
  pose proof (Z.mod_pos_bound x (2 ^ 32) eq_refl) as Hm.
  rewrite pow32, pow31 in *.
  destruct (Z.leb_spec 2147483648 (x mod 4294967296)); lia.
Qed.

Lemma toInt32_id x : isInt32 x -> toInt32 x = x.
Proof.
  unfold isInt32, toInt32. cbv zeta. rewrite pow32, pow31. intros Hx.
  destruct (Z_lt_le_dec x 0) as [Hneg | Hpos].
  - replace (x mod 4294967296) with (x + 4294967296).
    + destruct (Z.leb_spec 2147483648 (x + 4294967296)); lia.
    + apply Z.mod_unique with (q := -1); lia.
  - rewrite Z.mod_small by lia.
    destruct (Z.leb_spec 2147483648 x); lia.
Qed.

Lemma toInt32_idem x : toInt32 (toInt32 x) = toInt32 x.
Proof. apply toInt32_id, toInt32_range. Qed.

(** [ToInt32] keeps the residue modulo [2^32]. *)
Lemma toInt32_mod x : toInt32 x mod 2 ^ 32 = x mod 2 ^ 32.
Proof.
  unfold toInt32. cbv zeta.
  destruct (2 ^ 31 <=? x mod 2 ^ 32).
  - rewrite <- (Z.mod_mod x (2 ^ 32)) at 2 by discriminate.
    replace (x mod 2 ^ 32 - 2 ^ 32) with (x mod 2 ^ 32 + (-1) * 2 ^ 32) by lia.
    apply Z.mod_add. discriminate.
  - apply Z.mod_mod. discriminate.
Qed.

(** In a signed 32-bit integer every bit from 31 upwards is the sign. *)
Lemma isInt32_sign_bits y n :
  isInt32 y -> 31 <= n -> Z.testbit y n = Z.testbit y 31.
Proof.
  unfold isInt32. intros Hy Hn.
  destruct (Z_lt_le_dec y 0) as [Hneg | Hpos].
  - assert (Hall : forall k, 31 <= k -> Z.testbit y k = true).
    { intros k Hk. apply Z.bits_above_log2_neg; [lia |].
      destruct (Z.eq_dec (Z.pred (- y)) 0) as [-> | Hnz]; [simpl; lia |].
      apply Z.log2_lt_pow2; [lia |].
      apply Z.lt_le_trans with (2 ^ 31); [lia |].
      apply Z.pow_le_mono_r; lia. }
    rewrite (Hall n), (Hall 31); [reflexivity | lia | lia].
  - assert (Hall : forall k, 31 <= k -> Z.testbit y k = false).
    { intros k Hk.
      destruct (Z.eq_dec y 0) as [-> | Hnz]; [apply Z.testbit_0_l |].
      apply Z.bits_above_log2; [lia |].
      apply Z.log2_lt_pow2; [lia |].
      apply Z.lt_le_trans with (2 ^ 31); [lia |].
      apply Z.pow_le_mono_r; lia. }
    rewrite (Hall n), (Hall 31); [reflexivity | lia | lia].
Qed.

(** Bit [n] of [ToInt32 x] is bit [n] of [x] below 31 and the copy of
    bit 31 above. *)
Lemma toInt32_testbit x n :
  0 <= n -> Z.testbit (toInt32 x) n = Z.testbit x (Z.min n 31).
Proof.
  intros Hn.
  assert (Hlow : forall k, 0 <= k < 32 -> Z.testbit (toInt32 x) k = Z.testbit x k).
  { intros k Hk.
    rewrite <- (Z.mod_pow2_bits_low (toInt32 x) 32 k) by lia.
    rewrite toInt32_mod. apply Z.mod_pow2_bits_low. lia. }
  destruct (Z_lt_le_dec n 31) as [Hlt | Hge].
  - rewrite Z.min_l by lia. apply Hlow. lia.
  - rewrite Z.min_r by lia.
    rewrite (isInt32_sign_bits _ n (toInt32_range x) Hge).
    apply Hlow. lia.
Qed.

Lemma and_testbit a b n :
  0 <= n ->
  Z.testbit (and a b) n = Z.testbit a (Z.min n 31) && Z.testbit b (Z.min n 31).
Proof.
  intros Hn. unfold and.
  rewrite toInt32_testbit, Z.land_spec, !toInt32_testbit by lia.
  rewrite !(Z.min_l (Z.min n 31) 31) by lia. reflexivity.
Qed.

Lemma or_testbit a b n :
  0 <= n ->
  Z.testbit (or a b) n = Z.testbit a (Z.min n 31) || Z.testbit b (Z.min n 31).
Proof.
  intros Hn. unfold or.
  rewrite toInt32_testbit, Z.lor_spec, !toInt32_testbit by lia.
  rewrite !(Z.min_l (Z.min n 31) 31) by lia. reflexivity.
Qed.

Lemma xor_testbit a b n :
  0 <= n ->
  Z.testbit (xor a b) n = xorb (Z.testbit a (Z.min n 31)) (Z.testbit b (Z.min n 31)).
Proof.
  intros Hn. unfold xor.
  rewrite toInt32_testbit, Z.lxor_spec, !toInt32_testbit by lia.
  rewrite !(Z.min_l (Z.min n 31) 31) by lia. reflexivity.
Qed.

Lemma not_testbit a n :
  0 <= n -> Z.testbit (not a) n = negb (Z.testbit a (Z.min n 31)).
Proof.
  intros Hn. unfold not.
  rewrite toInt32_testbit, Z.lnot_spec, !toInt32_testbit by lia.
  rewrite !(Z.min_l (Z.min n 31) 31) by lia. reflexivity.
Qed.

(** The same, at one of the 32 bit positions. *)
Lemma and_bit a b k :
  0 <= k <= 31 -> Z.testbit (and a b) k = Z.testbit a k && Z.testbit b k.
Proof. intros Hk. rewrite and_testbit, Z.min_l by lia. reflexivity. Qed.

Lemma or_bit a b k :
  0 <= k <= 31 -> Z.testbit (or a b) k = Z.testbit a k || Z.testbit b k.
Proof. intros Hk. rewrite or_testbit, Z.min_l by lia. reflexivity. Qed.

Lemma xor_bit a b k :
  0 <= k <= 31 -> Z.testbit (xor a b) k = xorb (Z.testbit a k) (Z.testbit b k).
Proof. intros Hk. rewrite xor_testbit, Z.min_l by lia. reflexivity. Qed.

Lemma not_bit a k :
  0 <= k <= 31 -> Z.testbit (not a) k = negb (Z.testbit a k).
Proof. intros Hk. rewrite not_testbit, Z.min_l by lia. reflexivity. Qed.

Lemma and_range a b : isInt32 (and a b). Proof. apply toInt32_range. Qed.
Lemma or_range a b : isInt32 (or a b). Proof. apply toInt32_range. Qed.
Lemma xor_range a b : isInt32 (xor a b). Proof. apply toInt32_range. Qed.
Lemma not_range a : isInt32 (not a). Proof. apply toInt32_range. Qed.
Lemma shl_range a n : isInt32 (shl a n). Proof. apply toInt32_range. Qed.
Lemma zero_range : isInt32 0. Proof. unfold isInt32. rewrite pow31. lia. Qed.

(** Two signed 32-bit integers are equal exactly when their 32 bits are. *)
Lemma int32_eq_iff x y :
  isInt32 x -> isInt32 y ->
  x = y <-> (forall k, 0 <= k <= 31 -> Z.testbit x k = Z.testbit y k).
Proof.
  intros Hx Hy. split; [intros -> k _; reflexivity |].
  intros Hbits. apply Z.bits_inj'. intros n Hn.
  destruct (Z_lt_le_dec n 31) as [Hlt | Hge].
  - apply Hbits. lia.
  - rewrite (isInt32_sign_bits x n Hx Hge), (isInt32_sign_bits y n Hy Hge).
    apply Hbits. lia.
Qed.

Lemma or_0_r x : isInt32 x -> or x 0 = x.
Proof.
  intros Hx. apply int32_eq_iff; [apply or_range | assumption |].
  intros k Hk. rewrite or_bit, Z.bits_0, orb_false_r by assumption. reflexivity.
Qed.

Lemma or_0_l x : isInt32 x -> or 0 x = x.
Proof.
  intros Hx. apply int32_eq_iff; [apply or_range | assumption |].
  intros k Hk. rewrite or_bit, Z.bits_0 by assumption. reflexivity.
Qed.

Lemma and_0_r x : and x 0 = 0.
Proof.
  apply int32_eq_iff; [apply and_range | apply zero_range |].
  intros k Hk. rewrite and_bit, Z.bits_0, andb_false_r by assumption. reflexivity.
Qed.

Lemma and_0_l x : and 0 x = 0.
Proof.
  apply int32_eq_iff; [apply and_range | apply zero_range |].
  intros k Hk. rewrite and_bit, Z.bits_0 by assumption. reflexivity.
Qed.

End JSFacts.

(** Rewrites every bit of a 32-bit operator result at position [k]. *)
Ltac js_bits Hk :=
  repeat first
    [ rewrite (JSFacts.and_bit _ _ _ Hk)
    | rewrite (JSFacts.or_bit _ _ _ Hk)
    | rewrite (JSFacts.xor_bit _ _ _ Hk)
    | rewrite (JSFacts.not_bit _ _ Hk)
    | rewrite Z.bits_0 ].

(** Turns an equation between two 32-bit results into its 32 bit equations. *)
Ltac js_eq_bits :=
  rewrite JSFacts.int32_eq_iff
    by first [ assumption | apply JSFacts.and_range | apply JSFacts.or_range
             | apply JSFacts.xor_range | apply JSFacts.not_range
             | apply JSFacts.zero_range ].

(** ** Controls *)

Module ControlsFacts.
Import Controls.

Lemma new_Return i d :
  desiresUnincluded i d = false -> new i d = Return (mkControls i d).
Proof. unfold new. intros ->. reflexivity. Qed.

Lemma new_inv i d c :
  new i d = Return c ->
  c = mkControls i d /\ JS.and d (JS.not i) = 0.
Proof.
  unfold new, desiresUnincluded.
  destruct (Z.eqb_spec (JS.and d (JS.not i)) 0) as [E | E]; simpl;
    intros H; inversion H; subst; auto.
Qed.

Lemma desiresUnincluded_false i d :
  desiresUnincluded i d = false <-> JS.and d (JS.not i) = 0.
Proof.
  unfold desiresUnincluded.
  destruct (Z.eqb_spec (JS.and d (JS.not i)) 0); simpl; split; congruence.
Qed.

Lemma contradicts_false a b :
  contradicts a b = false <->
  JS.and (desiredValueMask b) (inclusionMask a)
  = JS.and (desiredValueMask a) (inclusionMask b).
Proof.
  unfold contradicts.
  destruct (Z.eqb_spec (JS.and (desiredValueMask b) (inclusionMask a))
                       (JS.and (desiredValueMask a) (inclusionMask b)));
    simpl; split; congruence.
Qed.

Lemma NONE_constructed : new 0 0 = Return NONE.
Proof. reflexivity. Qed.

(** What a successful [and] tells: no contradiction, the merged masks,
    and the constructor's check on them. *)
Lemma and_inv a b c :
  and a b = Return c ->
  JS.and (desiredValueMask b) (inclusionMask a)
  = JS.and (desiredValueMask a) (inclusionMask b)
  /\ c = mkControls (JS.or (inclusionMask a) (inclusionMask b))
                    (JS.or (desiredValueMask a) (desiredValueMask b))
  /\ invariant c.
Proof.
  unfold and. destruct (contradicts a b) eqn:E; [discriminate |].
  intros H. apply new_inv in H as [-> H].
  split; [apply contradicts_false, E | split; [reflexivity | exact H]].
Qed.

(** The merged masks of two values that satisfy the invariant satisfy it. *)
Lemma merged_invariant a b :
  invariant a -> invariant b ->
  JS.and (JS.or (desiredValueMask a) (desiredValueMask b))
         (JS.not (JS.or (inclusionMask a) (inclusionMask b))) = 0.
Proof.
  unfold invariant. intros Ha Hb.
  revert Ha Hb. js_eq_bits. js_eq_bits. js_eq_bits.
  intros Ha Hb k Hk. specialize (Ha k Hk). specialize (Hb k Hk).
  revert Ha Hb. js_bits Hk.
  destruct (Z.testbit (desiredValueMask a) k), (Z.testbit (desiredValueMask b) k),
    (Z.testbit (inclusionMask a) k), (Z.testbit (inclusionMask b) k);
    simpl; congruence.
Qed.

(** Whatever [bit] and [and] return has signed 32-bit masks. *)
Lemma bit_intMasks bitIndex desiredValue c :
  bit bitIndex desiredValue = Return c -> intMasks c.
Proof.
  unfold bit. destruct (bitIndex <? 0); [discriminate |].
  intros H. apply new_inv in H as [-> _]. split; cbn [inclusionMask desiredValueMask].
  - apply JSFacts.shl_range.
  - destruct desiredValue; [apply JSFacts.shl_range | apply JSFacts.zero_range].
Qed.

Lemma and_intMasks a b c : and a b = Return c -> intMasks c.
Proof.
  intros H. apply and_inv in H as (_ & -> & _).
  split; apply JSFacts.or_range.
Qed.

End ControlsFacts.

Example bit_31 :
  Controls.bit 31 true = Return (mkControls (- 2 ^ 31) (- 2 ^ 31)).
Proof. reflexivity. Qed.

Example bit_33 :
  Controls.bit 33 false = Return (mkControls 2 0).
Proof. reflexivity. Qed.

(** [1 << n] wraps: the shift count is taken modulo 32 and bit 31 is the
    sign. *)
Example shl_wraps : JS.shl 1 31 = - 2 ^ 31 /\ JS.shl 1 32 = 1.
Proof. split; reflexivity. Qed.

Example and_example :
  Controls.and (mkControls 5 1) (mkControls 6 2) = Return (mkControls 7 3).
Proof. reflexivity. Qed.

Example and_contradiction :
  Controls.and (mkControls 1 1) (mkControls 1 0)
  = Throw (ContradictoryControls (mkControls 1 1) (mkControls 1 0)).
Proof. reflexivity. Qed.

(** C2 (as stated) fails beyond 32 bits: the constructor accepts the
    desired-value mask [2^32] (its check wraps it to 0) and stores it as
    given, while [and] stores the wrapped mask.  So
    [new Controls(0, 2^32).and(Controls.NONE)] is [Controls(0, 0)], which
    allows the state 0, and [new Controls(0, 2^32)] does not. *)
Lemma and_allowsState_beyond_int32 :
  Controls.new 0 (2 ^ 32) = Return (mkControls 0 (2 ^ 32)) /\
  Controls.and (mkControls 0 (2 ^ 32)) Controls.NONE = Return (mkControls 0 0) /\
  Controls.allowsState (mkControls 0 0) 0 = true /\
  Controls.allowsState (mkControls 0 (2 ^ 32)) 0 && Controls.allowsState Controls.NONE 0
  = false /\
  Controls.allowsState (mkControls 0 0) 0
  <> Controls.allowsState (mkControls 0 (2 ^ 32)) 0 && Controls.allowsState Controls.NONE 0.
Proof. repeat split. discriminate. Qed.

(** C2 (amended). For Controls [a] and [b] whose desired-value masks are
    signed 32-bit integers and whose conjunction [a.and(b)] does not fail,
    the conjunction allows a basis index [s] exactly when both [a] and [b]
    allow it:
    [a.and(b).allowsState(s) == a.allowsState(s) && b.allowsState(s)]. *)
Theorem and_allowsState (a b ab : Controls) (s : Z) :
  JS.isInt32 (desiredValueMask a) -> JS.isInt32 (desiredValueMask b) ->
  Controls.and a b = Return ab ->
  Controls.allowsState ab s
  = Controls.allowsState a s && Controls.allowsState b s.
Proof.
  intros Hda Hdb Hand.
  apply ControlsFacts.and_inv in Hand as (E & -> & Hinv).
  unfold Controls.invariant in Hinv. unfold Controls.allowsState.
  cbn [inclusionMask desiredValueMask] in *.
  apply eq_true_iff_eq. rewrite andb_true_iff, !Z.eqb_eq.
  revert E Hinv. repeat js_eq_bits. intros E Hinv.
  split.
  - intros H. split; intros k Hk;
      generalize (E k Hk) (Hinv k Hk) (H k Hk); js_bits Hk;
      destruct (Z.testbit (desiredValueMask a) k), (Z.testbit (desiredValueMask b) k),
        (Z.testbit (inclusionMask a) k), (Z.testbit (inclusionMask b) k),
        (Z.testbit s k); simpl; congruence.
  - intros [Ha Hb] k Hk.
    generalize (Ha k Hk) (Hb k Hk); js_bits Hk;
      destruct (Z.testbit (desiredValueMask a) k), (Z.testbit (desiredValueMask b) k),
        (Z.testbit (inclusionMask a) k), (Z.testbit (inclusionMask b) k),
        (Z.testbit s k); simpl; congruence.
Qed.

Lemma and_allowsState_witness :
  Controls.allowsState (mkControls 7 3) 11
  = Controls.allowsState (mkControls 5 1) 11 && Controls.allowsState (mkControls 6 2) 11.
Proof.
  apply (and_allowsState (mkControls 5 1) (mkControls 6 2) (mkControls 7 3) 11).
  - unfold JS.isInt32; simpl; lia.
  - unfold JS.isInt32; simpl; lia.
  - reflexivity.
Defined.

(** C3. For every [a] and [b], [a.and(b)] throws the
    "Contradictory controls." error exactly when
    [b.desiredValueMask & a.inclusionMask != a.desiredValueMask & b.inclusionMask];
    whatever it returns is the Controls whose inclusion mask is the bitwise
    OR of the two inclusion masks and whose desired-value mask is the
    bitwise OR of the two desired-value masks; and for Controls values
    (which satisfy the constructor's invariant) it does return that value
    whenever the two sides of the guard agree. *)
Theorem and_contradiction_iff (a b : Controls) :
  (Controls.and a b = Throw (ContradictoryControls a b) <->
   JS.and (desiredValueMask b) (inclusionMask a)
   <> JS.and (desiredValueMask a) (inclusionMask b))
  /\
  (forall c, Controls.and a b = Return c ->
             c = mkControls (JS.or (inclusionMask a) (inclusionMask b))
                            (JS.or (desiredValueMask a) (desiredValueMask b)))
  /\
  (Controls.invariant a -> Controls.invariant b ->
   JS.and (desiredValueMask b) (inclusionMask a)
   = JS.and (desiredValueMask a) (inclusionMask b) ->
   Controls.and a b
   = Return (mkControls (JS.or (inclusionMask a) (inclusionMask b))
                        (JS.or (desiredValueMask a) (desiredValueMask b)))).
Proof.
  split; [| split].
  - unfold Controls.and. destruct (Controls.contradicts a b) eqn:E.
    + split; [| reflexivity].
      intros _ Heq. apply ControlsFacts.contradicts_false in Heq. congruence.
    + apply ControlsFacts.contradicts_false in E. split.
      * unfold Controls.new. destruct (Controls.desiresUnincluded _ _);
          intros H; discriminate H.
      * intros Hne. contradiction.
  - intros c H. apply ControlsFacts.and_inv in H as (_ & -> & _). reflexivity.
  - intros Ha Hb Heq. unfold Controls.and.
    rewrite (proj2 (ControlsFacts.contradicts_false a b) Heq).
    apply ControlsFacts.new_Return, ControlsFacts.desiresUnincluded_false.
    apply ControlsFacts.merged_invariant; assumption.
Qed.

Lemma and_contradiction_iff_witness :
  Controls.and (mkControls 5 1) (mkControls 6 2) = Return (mkControls 7 3) /\
  Controls.and (mkControls 1 1) (mkControls 1 0)
  = Throw (ContradictoryControls (mkControls 1 1) (mkControls 1 0)).
Proof.
  split.
  - apply (proj2 (proj2 (and_contradiction_iff (mkControls 5 1) (mkControls 6 2))));
      reflexivity.
  - apply (proj1 (and_contradiction_iff (mkControls 1 1) (mkControls 1 0))).
    vm_compute. discriminate.
Defined.

(** C4 (as stated) fails beyond 32 bits: the constructor accepts the masks
    [2^31] and stores them as given, while [and] stores what [|] returns.
    So [new Controls(2^31, 2^31).and(Controls.NONE)] and
    [Controls.NONE.and(new Controls(2^31, 2^31))] are
    [Controls(-2^31, -2^31)], which [isEqualTo] tells from the argument. *)
Lemma and_NONE_beyond_int32 :
  Controls.new (2 ^ 31) (2 ^ 31) = Return (mkControls (2 ^ 31) (2 ^ 31)) /\
  Controls.and (mkControls (2 ^ 31) (2 ^ 31)) Controls.NONE
  = Return (mkControls (- 2 ^ 31) (- 2 ^ 31)) /\
  Controls.and Controls.NONE (mkControls (2 ^ 31) (2 ^ 31))
  = Return (mkControls (- 2 ^ 31) (- 2 ^ 31)) /\
  Controls.isEqualTo (mkControls (- 2 ^ 31) (- 2 ^ 31)) (mkControls (2 ^ 31) (2 ^ 31))
  = false /\
  Controls.and (mkControls (2 ^ 31) (2 ^ 31)) Controls.NONE
  <> Return (mkControls (2 ^ 31) (2 ^ 31)).
Proof. repeat split. discriminate. Qed.

(** C4 (amended). [Controls.NONE] is a two-sided identity of [and] on
    32-bit masks: for a Controls [c] (a value the constructor accepts)
    whose masks are signed 32-bit integers, [c.and(NONE)] and
    [NONE.and(c)] both return (neither throws) a Controls equal to [c]. *)
Theorem and_NONE_identity (c : Controls) :
  Controls.intMasks c -> Controls.invariant c ->
  Controls.and c Controls.NONE = Return c /\
  Controls.and Controls.NONE c = Return c /\
  (forall r, Controls.and c Controls.NONE = Return r \/
             Controls.and Controls.NONE c = Return r ->
             Controls.isEqualTo r c = true).
Proof.
  intros [Hi Hd] Hinv. destruct c as [i d]. cbn [inclusionMask desiredValueMask] in *.
  assert (Hr : Controls.and (mkControls i d) Controls.NONE = Return (mkControls i d)).
  { unfold Controls.and, Controls.contradicts, Controls.NONE.
    cbn [inclusionMask desiredValueMask].
    rewrite JSFacts.and_0_l, JSFacts.and_0_r, Z.eqb_refl. simpl.
    rewrite !JSFacts.or_0_r by assumption.
    apply ControlsFacts.new_Return, ControlsFacts.desiresUnincluded_false, Hinv. }
  assert (Hl : Controls.and Controls.NONE (mkControls i d) = Return (mkControls i d)).
  { unfold Controls.and, Controls.contradicts, Controls.NONE.
    cbn [inclusionMask desiredValueMask].
    rewrite JSFacts.and_0_l, JSFacts.and_0_r, Z.eqb_refl. simpl.
    rewrite !JSFacts.or_0_l by assumption.
    apply ControlsFacts.new_Return, ControlsFacts.desiresUnincluded_false, Hinv. }
  split; [exact Hr | split; [exact Hl |]].
  intros r [H | H]; rewrite ?Hr, ?Hl in H; inversion H; subst;
    unfold Controls.isEqualTo; cbn [inclusionMask desiredValueMask];
    rewrite !Z.eqb_refl; reflexivity.
Qed.

Lemma and_NONE_identity_witness :
  Controls.and (mkControls 5 4) Controls.NONE = Return (mkControls 5 4) /\
  Controls.and Controls.NONE (mkControls 5 4) = Return (mkControls 5 4) /\
  (forall r, Controls.and (mkControls 5 4) Controls.NONE = Return r \/
             Controls.and Controls.NONE (mkControls 5 4) = Return r ->
             Controls.isEqualTo r (mkControls 5 4) = true).
Proof.
  apply (and_NONE_identity (mkControls 5 4)).
  - unfold Controls.intMasks, JS.isInt32; simpl; lia.
  - reflexivity.
Defined.

(** C5. Every Controls value obtained from the constructor, from
    [Controls.bit] or from [and] satisfies
    [desiredValueMask & ~inclusionMask == 0]: the constructor throws on any
    argument pair that violates it (and what it returns satisfies it);
    [Controls.bit], which throws only on a negative bit index, returns a
    value that satisfies it; and [a.and(b)] on two values that satisfy it
    either throws the contradiction error or returns a value that
    satisfies it. *)
Theorem invariant_established :
  (forall i d,
      (~ Controls.invariant (mkControls i d) ->
       Controls.new i d = Throw (DesiredUnincludedBits i d)) /\
      (forall c, Controls.new i d = Return c -> Controls.invariant c))
  /\
  (forall bitIndex desiredValue,
      (bitIndex < 0 ->
       Controls.bit bitIndex desiredValue = Throw (OutOfRange bitIndex)) /\
      (0 <= bitIndex ->
       exists c, Controls.bit bitIndex desiredValue = Return c /\
                 Controls.invariant c))
  /\
  (forall a b,
      Controls.invariant a -> Controls.invariant b ->
      Controls.and a b = Throw (ContradictoryControls a b) \/
      exists c, Controls.and a b = Return c /\ Controls.invariant c).
Proof.
  split; [| split].
  - intros i d. split.
    + intros Hn. unfold Controls.new.
      destruct (Controls.desiresUnincluded i d) eqn:E; [reflexivity |].
      exfalso. apply Hn. apply ControlsFacts.desiresUnincluded_false, E.
    + intros c H. apply ControlsFacts.new_inv in H as [-> H]. exact H.
  - intros bitIndex desiredValue. unfold Controls.bit. split; intros Hb.
    + destruct (Z.ltb_spec bitIndex 0); [reflexivity | lia].
    + destruct (Z.ltb_spec bitIndex 0); [lia |].
      eexists. split.
      * apply ControlsFacts.new_Return, ControlsFacts.desiresUnincluded_false.
        js_eq_bits. intros k Hk. js_bits Hk.
        destruct desiredValue; rewrite ?Z.bits_0;
          destruct (Z.testbit (JS.shl 1 bitIndex) k); reflexivity.
      * unfold Controls.invariant. cbn [inclusionMask desiredValueMask].
        js_eq_bits. intros k Hk. js_bits Hk.
        destruct desiredValue; rewrite ?Z.bits_0;
          destruct (Z.testbit (JS.shl 1 bitIndex) k); reflexivity.
  - intros a b Ha Hb. unfold Controls.and.
    destruct (Controls.contradicts a b); [left; reflexivity | right].
    pose proof (ControlsFacts.merged_invariant a b Ha Hb) as Hm.
    eexists. split.
    + apply ControlsFacts.new_Return, ControlsFacts.desiresUnincluded_false, Hm.
    + exact Hm.
Qed.

Lemma invariant_established_witness :
  Controls.new 0 1 = Throw (DesiredUnincludedBits 0 1) /\
  Controls.bit (-1) true = Throw (OutOfRange (-1)) /\
  (exists c, Controls.bit 3 true = Return c /\ Controls.invariant c) /\
  (Controls.and (mkControls 5 1) (mkControls 6 2)
   = Throw (ContradictoryControls (mkControls 5 1) (mkControls 6 2)) \/
   exists c, Controls.and (mkControls 5 1) (mkControls 6 2) = Return c /\
             Controls.invariant c).
Proof.
  destruct invariant_established as (Hnew & Hbit & Hand).
  split; [| split; [| split]].
  - apply (proj1 (Hnew 0 1)). vm_compute. discriminate.
  - apply (proj1 (Hbit (-1) true)). lia.
  - apply (proj2 (Hbit 3 true)). lia.
  - apply (Hand (mkControls 5 1) (mkControls 6 2)); reflexivity.
Defined.

(** ** Matrices and snapshots *)

Lemma offDensity_buffer :
  offDensity = mkMatrix 2 2 [one; zero; zero; zero; zero; zero; zero; zero].
Proof. reflexivity. Qed.

Lemma nanDensity_buffer :
  nanDensity = mkMatrix 2 2 [NaN; NaN; NaN; NaN; NaN; NaN; NaN; NaN].
Proof. reflexivity. Qed.

Lemma at_index_Some {A} (array : list A) (i : Z) :
  0 <= i < len array -> exists x, at_index array i = Some x.
Proof.
  unfold at_index, len. intros Hi.
  destruct (Z.ltb_spec i 0); [lia |].
  apply lookup_lt_is_Some. lia.
Qed.

Lemma at_index_None {A} (array : list A) (i : Z) :
  i < 0 \/ len array <= i -> at_index array i = None.
Proof.
  unfold at_index, len. intros Hi.
  destruct (Z.ltb_spec i 0); [reflexivity |].
  apply lookup_ge_None. lia.
Qed.

Lemma index_min_bound (colIndex : index) (bound : Z) :
  index_min colIndex bound <= bound.
Proof. destruct colIndex; simpl; lia. Qed.

(** [1 << n] is [2^n] for a shift that stays below the sign bit. *)
Lemma shl_1_small (n : Z) : 0 <= n <= 30 -> JS.shl 1 n = 2 ^ n.
Proof.
  intros Hn. unfold JS.shl, JS.shiftCount, JS.toUint32.
  rewrite (JSFacts.toInt32_id 1) by (unfold JS.isInt32; rewrite JSFacts.pow31; lia).
  rewrite JSFacts.pow32, Z.mod_small by lia.
  change 31 with (Z.ones 5). rewrite Z.land_ones by lia.
  change (2 ^ 5) with 32. rewrite Z.mod_small by lia.
  rewrite Z.shiftl_1_l. apply JSFacts.toInt32_id. unfold JS.isInt32.
  assert (0 < 2 ^ n) by (apply Z.pow_pos_nonneg; lia).
  assert (2 ^ n <= 2 ^ 30) by (apply Z.pow_le_mono_r; lia).
  rewrite JSFacts.pow31. change (2 ^ 30) with 1073741824 in *. lia.
Qed.

Section Queries.
Context {Custom : Type}.
Implicit Types (s : CircuitStats Custom) (wire : Z) (col : index).

(** The shape of [qubitDensityMatrix] once the wire index is not negative. *)
Lemma qubitDensityMatrix_nonneg s wire col :
  0 <= wire ->
  qubitDensityMatrix s wire col
  = Return (Some
      (if index_negative col || (numWires (circuitDefinition s) <=? wire)
       then offDensity
       else default nanDensity
              (storedDensity s (index_min col (len (_qubitDensities s) - 1)) wire))).
Proof.
  intros Hw. unfold qubitDensityMatrix, storedDensity.
  destruct (Z.ltb_spec wire 0) as [? | _]; [lia |].
  destruct (index_negative col || (numWires (circuitDefinition s) <=? wire));
    [reflexivity |].
  pose proof (index_min_bound col (len (_qubitDensities s) - 1)) as Hb.
  set (c := index_min col (len (_qubitDensities s) - 1)) in *.
  destruct (Z.ltb_spec c 0) as [Hneg | Hpos].
  - rewrite (at_index_None (_qubitDensities s) c) by lia. reflexivity.
  - destruct (at_index_Some (_qubitDensities s) c) as [row Hrow]; [lia |].
    rewrite Hrow. simpl.
    destruct (Z.leb_spec (len row) wire) as [Hout | Hin].
    + rewrite (at_index_None row wire) by lia. reflexivity.
    + destruct (at_index_Some row wire) as [m Hm]; [lia |].
      rewrite Hm. reflexivity.
Qed.

End Queries.

(** C6, as the specification words it, fails on a negative wire index: the
    query then throws also for [col < 0], where the claim promises
    [[1,0],[0,0]]. *)
Lemma qubitDensityMatrix_negative_wire :
  index_negative (Finite (-1)) = true /\
  qubitDensityMatrix sampleStats (-1) (Finite (-1))
  = Throw (BadWireIndex (-1) (Finite (-1))) /\
  qubitDensityMatrix sampleStats (-1) (Finite (-1)) <> Return (Some offDensity).
Proof. split; [reflexivity | split; [reflexivity | discriminate]]. Qed.

(** C6 (amended). For every snapshot, every wire index that is not
    negative and every column index, [qubitDensityMatrix(wire, col)]
    returns [[1,0],[0,0]] when [col < 0] or [wire >= numWires]; otherwise
    it clamps [col] to the last computed column index and returns a 2x2
    all-NaN matrix when the slot (clamped col, wire) was never computed,
    and the density matrix stored in that slot when it was. *)
Theorem qubitDensityMatrix_cases {Custom : Type}
    (s : CircuitStats Custom) (wire : Z) (col : index) :
  0 <= wire ->
  (index_negative col = true \/ numWires (circuitDefinition s) <= wire ->
   qubitDensityMatrix s wire col = Return (Some offDensity))
  /\
  (index_negative col = false -> wire < numWires (circuitDefinition s) ->
   let clamped := index_min col (len (_qubitDensities s) - 1) in
   (storedDensity s clamped wire = None ->
    qubitDensityMatrix s wire col = Return (Some nanDensity)) /\
   (forall m, storedDensity s clamped wire = Some m ->
              qubitDensityMatrix s wire col = Return (Some m)))
  /\
  offDensity = mkMatrix 2 2 [one; zero; zero; zero; zero; zero; zero; zero]
  /\
  nanDensity = mkMatrix 2 2 [NaN; NaN; NaN; NaN; NaN; NaN; NaN; NaN].
Proof.
  intros Hw. rewrite (qubitDensityMatrix_nonneg s wire col Hw).
  split; [| split; [| split; reflexivity]].
  - intros [Hc | Hn].
    + rewrite Hc. reflexivity.
    + destruct (Z.leb_spec (numWires (circuitDefinition s)) wire); [| lia].
      rewrite orb_true_r. reflexivity.
  - intros Hc Hn. cbv zeta.
    destruct (Z.leb_spec (numWires (circuitDefinition s)) wire); [lia |].
    rewrite Hc. simpl.
    split; [intros -> | intros m ->]; reflexivity.
Qed.

Lemma qubitDensityMatrix_cases_witness :
  qubitDensityMatrix sampleStats 5 Infinity = Return (Some offDensity) /\
  qubitDensityMatrix sampleStats 1 (Finite 7) = Return (Some nanDensity) /\
  qubitDensityMatrix sampleStats 0 Infinity = Return (Some offDensity).
Proof.
  split; [| split].
  - destruct (qubitDensityMatrix_cases sampleStats 5 Infinity) as (Hoff & _);
      [lia |].
    apply Hoff. right. simpl. lia.
  - destruct (qubitDensityMatrix_cases sampleStats 1 (Finite 7)) as (_ & Hin & _);
      [lia |].
    destruct Hin as [Hnan _]; [reflexivity | simpl; lia |].
    apply Hnan. reflexivity.
  - destruct (qubitDensityMatrix_cases sampleStats 0 Infinity) as (_ & Hin & _);
      [lia |].
    destruct Hin as [_ Hsome]; [reflexivity | simpl; lia |].
    apply (Hsome offDensity). reflexivity.
Defined.

(** C10. [qubitDensityMatrix(wire, col)] throws ("Bad wireIndex") for every
    negative wire index, whatever the column, while for every wire index
    that is not negative it returns a matrix; in particular
    [wire >= numWires] returns the [[1,0],[0,0]] matrix.  A negative wire
    index is the one input on which the query raises. *)
Theorem qubitDensityMatrix_throws_iff_negative_wire {Custom : Type}
    (s : CircuitStats Custom) (wire : Z) (col : index) :
  (wire < 0 -> qubitDensityMatrix s wire col = Throw (BadWireIndex wire col))
  /\
  (0 <= wire -> exists m, qubitDensityMatrix s wire col = Return (Some m))
  /\
  (0 <= wire -> numWires (circuitDefinition s) <= wire ->
   qubitDensityMatrix s wire col = Return (Some offDensity)).
Proof.
  split; [| split].
  - intros Hw. unfold qubitDensityMatrix.
    destruct (Z.ltb_spec wire 0); [reflexivity | lia].
  - intros Hw. rewrite (qubitDensityMatrix_nonneg s wire col Hw). eauto.
  - intros Hw Hn. rewrite (qubitDensityMatrix_nonneg s wire col Hw).
    destruct (Z.leb_spec (numWires (circuitDefinition s)) wire); [| lia].
    rewrite orb_true_r. reflexivity.
Qed.

Lemma qubitDensityMatrix_throws_iff_negative_wire_witness :
  qubitDensityMatrix sampleStats (-1) (Finite (-1))
  = Throw (BadWireIndex (-1) (Finite (-1))) /\
  (exists m, qubitDensityMatrix sampleStats 1 (Finite 0) = Return (Some m)) /\
  qubitDensityMatrix sampleStats 2 (Finite 0) = Return (Some offDensity).
Proof.
  split; [| split].
  - apply (qubitDensityMatrix_throws_iff_negative_wire sampleStats (-1) (Finite (-1))).
    lia.
  - apply (qubitDensityMatrix_throws_iff_negative_wire sampleStats 1 (Finite 0)).
    lia.
  - apply (qubitDensityMatrix_throws_iff_negative_wire sampleStats 2 (Finite 0));
      simpl; lia.
Defined.

(** C7. [controlledWireProbabilityJustAfter(wire, col)] is element 6 of the
    raw buffer of the matrix that [qubitDensityMatrix(wire, col)] returns,
    which for a matrix of width 2 is the real part of its entry at row 1,
    column 1; when [qubitDensityMatrix] throws, it throws the same. *)
Theorem controlledWireProbabilityJustAfter_spec {Custom : Type}
    (s : CircuitStats Custom) (wire : Z) (col : index) :
  (forall m, qubitDensityMatrix s wire col = Return (Some m) ->
             controlledWireProbabilityJustAfter s wire col
             = Return (at_index (rawBuffer m) 6)
             /\ (width m = 2 ->
                 at_index (rawBuffer m) 6 = fst (Matrix.entry m 1 1)))
  /\
  (forall e, qubitDensityMatrix s wire col = Throw e ->
             controlledWireProbabilityJustAfter s wire col = Throw e).
Proof.
  unfold controlledWireProbabilityJustAfter. split.
  - intros m ->. split; [reflexivity |].
    intros Hw. unfold Matrix.entry. rewrite Hw. reflexivity.
  - intros e ->. reflexivity.
Qed.

Lemma controlledWireProbabilityJustAfter_spec_witness :
  controlledWireProbabilityJustAfter sampleStats 0 (Finite 0) = Return (Some zero) /\
  controlledWireProbabilityJustAfter sampleStats (-3) Infinity
  = Throw (BadWireIndex (-3) Infinity).
Proof.
  split.
  - apply (proj1 (controlledWireProbabilityJustAfter_spec sampleStats 0 (Finite 0))
             offDensity eq_refl).
  - apply (proj2 (controlledWireProbabilityJustAfter_spec sampleStats (-3) Infinity)).
    reflexivity.
Defined.

(** C9. [s.withTime(t)] is [s] with the time replaced by [t]: every other
    field (circuit definition, per-column densities, final state, survival
    rate, custom statistics) is the one held by [s], and nothing is
    computed anew. *)
Theorem withTime_frame {Custom : Type} (s : CircuitStats Custom) (t : number) :
  time (withTime s t) = t /\
  circuitDefinition (withTime s t) = circuitDefinition s /\
  _qubitDensities (withTime s t) = _qubitDensities s /\
  finalState (withTime s t) = finalState s /\
  postSelectionSurvivalRate (withTime s t) = postSelectionSurvivalRate s /\
  _customStatsProcessed (withTime s t) = _customStatsProcessed s.
Proof. repeat split. Qed.

(** ** Single-precision rounding *)

Lemma digits_spec (m : Z) : 0 < m -> 2 ^ (digits m - 1) <= m < 2 ^ digits m.
Proof.
  intros H. unfold digits. replace (Z.log2 m + 1 - 1) with (Z.log2 m) by lia.
  apply Z.log2_spec. exact H.
Qed.

Lemma digits_le (q b : Z) : 0 < q -> 0 <= b -> q < 2 ^ b -> digits q <= b.
Proof.
  intros Hq Hb H. unfold digits. apply Z.log2_lt_pow2 in H; lia.
Qed.

Lemma digits_eq (q b : Z) : 0 < b -> 2 ^ (b - 1) <= q < 2 ^ b -> digits q = b.
Proof.
  intros Hb H. unfold digits.
  rewrite (Z.log2_unique q (b - 1)); [lia | lia |].
  replace (Z.succ (b - 1)) with b by lia. exact H.
Qed.

(** The rounded mantissa has at most 24 digits, or is [2^24] (a carry); it
    has 24 of them unless the exponent is the least one. *)
Lemma roundedMantissa_bounds (m e : Z) :
  0 < m ->
  0 <= roundedMantissa m e (Z.max (digits m + e - 24) (-149)) <= 2 ^ 24 /\
  (roundedMantissa m e (Z.max (digits m + e - 24) (-149)) = 0 \/
   Z.max (digits m + e - 24) (-149) = -149 \/
   2 ^ 23 <= roundedMantissa m e (Z.max (digits m + e - 24) (-149))).
Proof.
  intros Hm. set (fexp := Z.max (digits m + e - 24) (-149)).
  pose proof (digits_spec m Hm) as [Hlo Hhi].
  assert (Hd : 0 < digits m) by (unfold digits; pose proof (Z.log2_nonneg m); lia).
  unfold roundedMantissa.
  destruct (Z.leb_spec fexp e) as [Hfe | Hfe].
  - rewrite Z.shiftl_mul_pow2 by lia.
    assert (Hp : 0 < 2 ^ (e - fexp)) by (apply Z.pow_pos_nonneg; lia).
    split; [split; [nia |] |].
    + assert (m * 2 ^ (e - fexp) < 2 ^ 24); [| lia].
      apply Z.lt_le_trans with (2 ^ digits m * 2 ^ (e - fexp)); [nia |].
      rewrite <- Z.pow_add_r by lia. apply Z.pow_le_mono_r; lia.
    + destruct (Z.eq_dec fexp (-149)) as [| Hne]; [auto |]. right; right.
      assert (Hf : fexp = digits m + e - 24) by lia.
      replace (e - fexp) with (24 - digits m) in * by lia.
      apply Z.le_trans with (2 ^ (digits m - 1) * 2 ^ (24 - digits m)); [| nia].
      rewrite <- Z.pow_add_r by lia.
      replace (digits m - 1 + (24 - digits m)) with 23 by lia. lia.
  - set (k := fexp - e). assert (Hk : 0 < k) by (unfold k; lia).
    rewrite Z.shiftr_div_pow2 by lia.
    assert (Hp : 0 < 2 ^ k) by (apply Z.pow_pos_nonneg; lia).
    assert (Hq0 : 0 <= m / 2 ^ k) by (apply Z.div_pos; lia).
    assert (Hq1 : m / 2 ^ k < 2 ^ 24).
    { apply Z.div_lt_upper_bound; [lia |].
      apply Z.lt_le_trans with (2 ^ digits m); [lia |].
      rewrite <- Z.pow_add_r by lia. apply Z.pow_le_mono_r; unfold k; lia. }
    assert (Hq2 : fexp = -149 \/ 2 ^ 23 <= m / 2 ^ k).
    { destruct (Z.eq_dec fexp (-149)) as [| Hne]; [auto |]. right.
      assert (Hf : digits m = 24 + k) by (unfold k; lia).
      apply Z.div_le_lower_bound; [lia |].
      apply Z.le_trans with (2 ^ (digits m - 1)); [| lia].
      rewrite <- Z.pow_add_r by lia. apply Z.pow_le_mono_r; lia. }
    destruct (_ || _); (split; [lia |]); destruct Hq2; auto; lia.
Qed.

(** Rounding gives a single-precision value ... *)
Lemma fround_canonical32 (x : number) : canonical32 (fround x).
Proof.
  destruct x as [s | s | | s m e]; try exact I.
  unfold fround.
  pose proof (roundedMantissa_bounds (Zpos m) e ltac:(lia)) as [[Hq0 Hq1] Hq2].
  set (fexp := Z.max (digits (Zpos m) + e - 24) (-149)) in *.
  set (q := roundedMantissa (Zpos m) e fexp) in *.
  assert (Hf : -149 <= fexp) by (unfold fexp; lia).
  destruct (Z.eqb_spec q (2 ^ 24)) as [Hc | Hc].
  - change (2 ^ 23) with (Zpos 8388608).
    destruct (Z.leb_spec (fexp + 1) 104); [| exact I].
    split; [| assumption]. change (digits (Zpos 8388608)) with 24. lia.
  - destruct q as [| m' |] eqn:Eq; [exact I | | exact I].
    destruct (Z.leb_spec fexp 104); [| exact I].
    split; [| assumption].
    assert (Hd : digits (Zpos m') <= 24) by (apply digits_le; lia).
    destruct Hq2 as [| [Hu | Hn]]; [lia | lia |].
    rewrite (digits_eq (Zpos m') 24) by (change (24 - 1) with 23; lia). lia.
Qed.

(** ... and leaves a single-precision value as it is. *)
Lemma fround_fixes_canonical32 (x : number) : canonical32 x -> fround x = x.
Proof.
  destruct x as [s | s | | s m e]; try reflexivity.
  intros [He Hmax]. unfold fround. rewrite <- He.
  unfold roundedMantissa. rewrite Z.leb_refl, Z.sub_diag, Z.shiftl_0_r.
  assert (Hlt : Zpos m < 2 ^ 24).
  { pose proof (digits_spec (Zpos m) ltac:(lia)) as [_ Hhi].
    apply Z.lt_le_trans with (2 ^ digits (Zpos m)); [exact Hhi |].
    apply Z.pow_le_mono_r; lia. }
  destruct (Z.eqb_spec (Zpos m) (2 ^ 24)); [lia |].
  destruct (Z.leb_spec e 104); [reflexivity | lia].
Qed.

Lemma fround_idempotent (x : number) : fround (fround x) = fround x.
Proof. apply fround_fixes_canonical32, fround_canonical32. Qed.

Lemma fround_zero : fround zero = zero.
Proof. reflexivity. Qed.

(** On these inputs the rounding is the one of the Standard Library's
    binary32: a double with an inexact single, a tie, the least
    magnitudes and the overflow. *)
Example fround_as_binary_round :
  Forall (fun '(m, e) => fround (S754_finite false m e)
                         = binary_round 24 128 false m e)
         [(7205759403792794%positive, -56); (8106479329266893%positive, -53);
          (1%positive, 0); (16777217%positive, 0); (16777219%positive, 0);
          (33554431%positive, 103); (33554429%positive, 103);
          (1%positive, -150); (3%positive, -151); (16777215%positive, -150);
          (1%positive, 127); (1%positive, 128)].
Proof. repeat constructor. Qed.

Example tenth_is_one_tenth :
  tenth = SFdiv 53 1024 (SFone 53 1024) (binary_normalize 53 1024 10 0 false)
  /\ fround tenth = tenthSingle
  /\ SFcompare tenthSingle tenth = Some Gt.
Proof. repeat split. Qed.

Example singles : isSingle zero /\ isSingle one /\ isSingle half /\ isSingle NaN.
Proof. repeat split. Qed.

Lemma at_index_fmap {A B} (f : A -> B) (array : list A) (i : Z) :
  at_index (f <$> array) i = f <$> at_index array i.
Proof.
  unfold at_index. destruct (i <? 0); [reflexivity | apply list_lookup_fmap].
Qed.

Lemma at_index_elem_of {A} (array : list A) (i : Z) (x : A) :
  at_index array i = Some x -> x ∈ array.
Proof.
  unfold at_index. destruct (i <? 0); [discriminate |].
  apply list_elem_of_lookup_2.
Qed.

(** The entries of a matrix of single-precision values survive the copy. *)
Lemma froundEntry_single (M : Matrix) (row col : Z) :
  Matrix.singlePrecision M ->
  froundEntry (Matrix.entry M row col) = Matrix.entry M row col.
Proof.
  unfold Matrix.singlePrecision. rewrite Forall_forall. intros Hs.
  assert (Hat : forall i, fround <$> at_index (rawBuffer M) i
                          = at_index (rawBuffer M) i).
  { intros i. destruct (at_index (rawBuffer M) i) as [x |] eqn:E; [| reflexivity].
    simpl. f_equal. apply Hs. eapply at_index_elem_of, E. }
  unfold froundEntry, Matrix.entry. cbn [fst snd]. rewrite !Hat. reflexivity.
Qed.

(** ** Decoherence *)

Section Decoherence.
Variables (n isMeasuredMask : Z).

(** A fold of steps that each either zero position [p] or leave it alone
    zeroes it exactly when one of the steps does. *)
Lemma foldl_zeroed {B} (f : list number -> B -> list number) (h : B -> bool) (p : nat) :
  (forall buf b, f buf b !! p = (fun x => if h b then zero else x) <$> buf !! p) ->
  forall bs buf,
    foldl f buf bs !! p = (fun x => if existsb h bs then zero else x) <$> buf !! p.
Proof.
  intros Hf bs. induction bs as [| b bs IH]; intros buf; simpl.
  - destruct (buf !! p); reflexivity.
  - rewrite IH, Hf. destruct (buf !! p); simpl; [| reflexivity].
    destruct (h b); simpl; [destruct (existsb h bs) |]; reflexivity.
Qed.

Lemma foldl_length {B} (f : list number -> B -> list number) :
  (forall buf b, length (f buf b) = length buf) ->
  forall bs buf, length (foldl f buf bs) = length buf.
Proof.
  intros Hf bs. induction bs as [| b bs IH]; intros buf; simpl; [reflexivity |].
  rewrite IH. apply Hf.
Qed.

Lemma decohereEntry_length row buf col :
  length (decohereEntry n isMeasuredMask row buf col) = length buf.
Proof.
  unfold decohereEntry.
  destruct (negb _); [| reflexivity].
  cbv zeta. rewrite !length_insert. reflexivity.
Qed.

Lemma decohereEntry_lookup row buf col p :
  decohereEntry n isMeasuredMask row buf col !! p
  = (fun x => if zeroes n isMeasuredMask p row col then zero else x) <$> buf !! p.
Proof.
  unfold decohereEntry, zeroes.
  destruct (negb (JS.and (JS.xor row col) isMeasuredMask =? 0)); simpl;
    [| destruct (buf !! p); reflexivity].
  set (k := (row * n + col) * 2).
  destruct (Nat.eqb_spec p (Z.to_nat (k + 1))) as [-> | Hne1].
  - rewrite orb_true_r.
    destruct (<[Z.to_nat k:=zero]> buf !! Z.to_nat (k + 1)) as [x |] eqn:E.
    + apply lookup_lt_Some in E as Hlt.
      rewrite list_lookup_insert_eq by exact Hlt.
      rewrite length_insert in Hlt.
      destruct (lookup_lt_is_Some_2 buf _ Hlt) as [y ->]. reflexivity.
    + apply lookup_ge_None in E as Hge.
      rewrite list_insert_ge by exact Hge. rewrite E.
      rewrite length_insert in Hge.
      rewrite (proj2 (lookup_ge_None buf _) Hge). reflexivity.
  - rewrite list_lookup_insert_ne by congruence. rewrite orb_false_r.
    destruct (Nat.eqb_spec p (Z.to_nat k)) as [-> | Hne0].
    + destruct (buf !! Z.to_nat k) as [x |] eqn:E.
      * apply lookup_lt_Some in E. rewrite list_lookup_insert_eq by exact E.
        reflexivity.
      * apply lookup_ge_None in E as Hge.
        rewrite list_insert_ge by exact Hge. rewrite E. reflexivity.
    + rewrite list_lookup_insert_ne by congruence.
      destruct (buf !! p); reflexivity.
Qed.

Lemma decohereRow_length buf row :
  length (decohereRow n isMeasuredMask buf row) = length buf.
Proof. apply foldl_length. intros. apply decohereEntry_length. Qed.

Lemma decohereRow_lookup buf row p :
  decohereRow n isMeasuredMask buf row !! p
  = (fun x => if existsb (zeroes n isMeasuredMask p row) (seqZ 0 n) then zero else x)
      <$> buf !! p.
Proof. apply foldl_zeroed. intros. apply decohereEntry_lookup. Qed.

Lemma decohereAll_lookup buf p :
  foldl (decohereRow n isMeasuredMask) buf (seqZ 0 n) !! p
  = (fun x =>
       if existsb (fun row => existsb (zeroes n isMeasuredMask p row) (seqZ 0 n))
                  (seqZ 0 n)
       then zero else x) <$> buf !! p.
Proof.
  apply (foldl_zeroed (decohereRow n isMeasuredMask)
           (fun row => existsb (zeroes n isMeasuredMask p row) (seqZ 0 n))).
  intros. apply decohereRow_lookup.
Qed.

(** Position [(row*n + col)*2 + d], [d] in {0, 1}, is written by the loop
    body of ([row], [col]) only. *)
Lemma zeroes_somewhere row col d :
  0 <= row < n -> 0 <= col < n -> 0 <= d <= 1 ->
  existsb (fun r => existsb (zeroes n isMeasuredMask
                               (Z.to_nat ((row * n + col) * 2 + d)) r) (seqZ 0 n))
          (seqZ 0 n)
  = negb (JS.and (JS.xor row col) isMeasuredMask =? 0).
Proof.
  intros Hrow Hcol Hd. apply eq_true_iff_eq. rewrite existsb_exists. split.
  - intros (r & Hr & Hex). apply existsb_exists in Hex as (c & Hc & Hz).
    apply list_elem_of_In, elem_of_seqZ in Hr.
    apply list_elem_of_In, elem_of_seqZ in Hc.
    unfold zeroes in Hz. apply andb_true_iff in Hz as [Hcond Hpos].
    assert (Heq : r * n + c = row * n + col).
    { apply orb_true_iff in Hpos as [Hp | Hp]; apply Nat.eqb_eq in Hp; nia. }
    assert (r = row) by nia. subst r.
    assert (c = col) by lia. subst c. exact Hcond.
  - intros Hcond. exists row. split.
    + apply list_elem_of_In, elem_of_seqZ. lia.
    + apply existsb_exists. exists col. split.
      * apply list_elem_of_In, elem_of_seqZ. lia.
      * unfold zeroes. rewrite Hcond. simpl.
        assert (d = 0 \/ d = 1) as [-> | ->] by lia.
        -- rewrite Z.add_0_r, Nat.eqb_refl. reflexivity.
        -- rewrite Nat.eqb_refl, orb_true_r. reflexivity.
Qed.

End Decoherence.

Lemma xor_diag (x : Z) : JS.xor x x = 0.
Proof.
  apply JSFacts.int32_eq_iff; [apply JSFacts.xor_range | apply JSFacts.zero_range |].
  intros k Hk. rewrite JSFacts.xor_bit, Z.bits_0 by assumption.
  apply xorb_nilpotent.
Qed.

(** The result of the loops at a buffer position of the entry ([row], [col]). *)
Lemma decohere_at (buf : list number) (n mask row col d : Z) :
  len buf = n * n * 2 -> 0 <= row < n -> 0 <= col < n -> 0 <= d <= 1 ->
  at_index (foldl (decohereRow n mask) buf (seqZ 0 n))
           ((row * n + col) * 2 + d)
  = if JS.and (JS.xor row col) mask =? 0
    then at_index buf ((row * n + col) * 2 + d)
    else Some zero.
Proof.
  intros Hlen Hrow Hcol Hd. unfold at_index, len in *.
  destruct (Z.ltb_spec ((row * n + col) * 2 + d) 0) as [Hneg | _]; [nia |].
  rewrite decohereAll_lookup, zeroes_somewhere by assumption.
  destruct (lookup_lt_is_Some_2 buf (Z.to_nat ((row * n + col) * 2 + d)))
    as [x ->]; [nia |].
  simpl. destruct (JS.and (JS.xor row col) mask =? 0); reflexivity.
Qed.

(** The entries of a decohered square matrix: zero where the guard of the
    loops holds; elsewhere the entry of the argument, read back from the
    [Float32Array] copy unless the mask is 0 and no copy is made. *)
Lemma decohere_entry (M : Matrix) (n mask row col : Z) :
  Matrix.square M n -> 0 <= row < n -> 0 <= col < n ->
  Matrix.entry (decohereMeasuredBitsInDensityMatrix M mask) row col
  = if JS.and (JS.xor row col) mask =? 0
    then (if mask =? 0 then Matrix.entry M row col
          else froundEntry (Matrix.entry M row col))
    else (Some zero, Some zero).
Proof.
  intros (Hw & _ & Hlen) Hrow Hcol. unfold decohereMeasuredBitsInDensityMatrix.
  destruct (Z.eqb_spec mask 0) as [-> | Hmask].
  - rewrite JSFacts.and_0_r. reflexivity.
  - assert (Hlen' : len (fround <$> rawBuffer M) = n * n * 2).
    { unfold len in *. rewrite length_fmap. exact Hlen. }
    pose proof (decohere_at _ n mask row col 0 Hlen' Hrow Hcol ltac:(lia)) as H0.
    pose proof (decohere_at _ n mask row col 1 Hlen' Hrow Hcol ltac:(lia)) as H1.
    unfold Matrix.entry, froundEntry.
    cbn [width rawBuffer fst snd]. rewrite Hw.
    rewrite Z.add_0_r in H0. rewrite H0, H1, !at_index_fmap.
    destruct (JS.and (JS.xor row col) mask =? 0); reflexivity.
Qed.

Lemma decohere_square (M : Matrix) (n mask : Z) :
  Matrix.square M n ->
  Matrix.square (decohereMeasuredBitsInDensityMatrix M mask) n.
Proof.
  intros Hsq. unfold decohereMeasuredBitsInDensityMatrix.
  destruct (mask =? 0); [exact Hsq |].
  destruct Hsq as (Hw & Hh & Hlen). unfold Matrix.square, len in *.
  cbn [width height rawBuffer].
  rewrite foldl_length by (intros; apply decohereRow_length).
  rewrite length_fmap. auto.
Qed.

(** C8 (as stated) fails on a matrix of doubles: for [[0.1, 0], [0, 0.9]]
    and the mask 1 the guard does not hold at (0, 0), and the entry
    returned there is the single-precision [0.10000000149011612], a
    number greater than the [0.1] of the argument. *)
Lemma decohere_rounds_doubles :
  Matrix.square tenthDensity 2 /\
  JS.and (JS.xor 0 0) 1 = 0 /\
  Matrix.entry tenthDensity 0 0 = (Some tenth, Some zero) /\
  Matrix.entry (decohereMeasuredBitsInDensityMatrix tenthDensity 1) 0 0
  = (Some tenthSingle, Some zero) /\
  SFcompare tenthSingle tenth = Some Gt /\
  Matrix.entry (decohereMeasuredBitsInDensityMatrix tenthDensity 1) 0 0
  <> Matrix.entry tenthDensity 0 0.
Proof.
  repeat split. intros H. vm_compute in H. discriminate H.
Qed.

(** C8 (amended). For a square density matrix [M] and a bitmask
    [isMeasuredMask], [decohereMeasuredBitsInDensityMatrix(M, isMeasuredMask)]
    is a square matrix of the same side whose entry at ([row], [col]) is 0
    (real and imaginary part) when [((row ^ col) & isMeasuredMask) != 0];
    otherwise it is the entry of [M] when the mask is 0, and that entry
    rounded to single precision (the copy through [Float32Array]) when it
    is not.  For the mask 0 the result is [M]; diagonal entries are
    changed by that rounding only; and when [M] holds single-precision
    values the entries that are not zeroed, the diagonal among them, are
    those of [M]. *)
Theorem decohereMeasuredBitsInDensityMatrix_spec (M : Matrix) (n isMeasuredMask : Z) :
  Matrix.square M n ->
  Matrix.square (decohereMeasuredBitsInDensityMatrix M isMeasuredMask) n
  /\
  (forall row col, 0 <= row < n -> 0 <= col < n ->
     Matrix.entry (decohereMeasuredBitsInDensityMatrix M isMeasuredMask) row col
     = if JS.and (JS.xor row col) isMeasuredMask =? 0
       then (if isMeasuredMask =? 0 then Matrix.entry M row col
             else froundEntry (Matrix.entry M row col))
       else (Some zero, Some zero))
  /\
  (isMeasuredMask = 0 -> decohereMeasuredBitsInDensityMatrix M isMeasuredMask = M)
  /\
  (forall row, 0 <= row < n ->
     Matrix.entry (decohereMeasuredBitsInDensityMatrix M isMeasuredMask) row row
     = if isMeasuredMask =? 0 then Matrix.entry M row row
       else froundEntry (Matrix.entry M row row))
  /\
  (Matrix.singlePrecision M ->
     (forall row col, 0 <= row < n -> 0 <= col < n ->
        Matrix.entry (decohereMeasuredBitsInDensityMatrix M isMeasuredMask) row col
        = if JS.and (JS.xor row col) isMeasuredMask =? 0
          then Matrix.entry M row col
          else (Some zero, Some zero))
     /\
     (forall row, 0 <= row < n ->
        Matrix.entry (decohereMeasuredBitsInDensityMatrix M isMeasuredMask) row row
        = Matrix.entry M row row)).
Proof.
  intros Hsq.
  assert (Hdiag : forall row, 0 <= row < n ->
     Matrix.entry (decohereMeasuredBitsInDensityMatrix M isMeasuredMask) row row
     = if isMeasuredMask =? 0 then Matrix.entry M row row
       else froundEntry (Matrix.entry M row row)).
  { intros row Hrow. rewrite (decohere_entry M n) by assumption.
    rewrite xor_diag, JSFacts.and_0_l. reflexivity. }
  split; [apply decohere_square, Hsq |].
  split; [intros row col Hrow Hcol; apply (decohere_entry M n); assumption |].
  split; [intros ->; reflexivity |].
  split; [exact Hdiag |].
  intros Hsingle. split.
  - intros row col Hrow Hcol. rewrite (decohere_entry M n) by assumption.
    rewrite froundEntry_single by exact Hsingle.
    destruct (isMeasuredMask =? 0); reflexivity.
  - intros row Hrow. rewrite Hdiag by assumption.
    rewrite froundEntry_single by exact Hsingle.
    destruct (isMeasuredMask =? 0); reflexivity.
Qed.

Example decohere_plusDensity :
  decohereMeasuredBitsInDensityMatrix plusDensity 1
  = mkMatrix 2 2 [half; zero; zero; zero; zero; zero; half; zero].
Proof. reflexivity. Qed.

Example decohere_tenthDensity :
  decohereMeasuredBitsInDensityMatrix tenthDensity 1
  = mkMatrix 2 2 [tenthSingle; zero; zero; zero; zero; zero; fround nineTenths; zero]
  /\ decohereMeasuredBitsInDensityMatrix tenthDensity 0 = tenthDensity.
Proof. split; reflexivity. Qed.

Lemma plusDensity_single : Matrix.singlePrecision plusDensity.
Proof. repeat constructor. Qed.

Lemma decohereMeasuredBitsInDensityMatrix_spec_witness :
  Matrix.entry (decohereMeasuredBitsInDensityMatrix plusDensity 1) 0 1
  = (Some zero, Some zero) /\
  Matrix.entry (decohereMeasuredBitsInDensityMatrix plusDensity 1) 1 1
  = (Some half, Some zero) /\
  decohereMeasuredBitsInDensityMatrix plusDensity 0 = plusDensity /\
  Matrix.entry (decohereMeasuredBitsInDensityMatrix tenthDensity 1) 0 0
  = (Some tenthSingle, Some zero).
Proof.
  assert (Hsq : Matrix.square plusDensity 2) by (repeat split).
  assert (Hsq' : Matrix.square tenthDensity 2) by (repeat split).
  split; [| split; [| split]].
  - destruct (decohereMeasuredBitsInDensityMatrix_spec plusDensity 2 1 Hsq)
      as (_ & Hentry & _).
    exact (Hentry 0 1 ltac:(lia) ltac:(lia)).
  - destruct (decohereMeasuredBitsInDensityMatrix_spec plusDensity 2 1 Hsq)
      as (_ & _ & _ & _ & Hsingle).
    destruct (Hsingle plusDensity_single) as [_ Hdiag].
    exact (Hdiag 1 ltac:(lia)).
  - destruct (decohereMeasuredBitsInDensityMatrix_spec plusDensity 2 0 Hsq)
      as (_ & _ & Hzero & _).
    exact (Hzero eq_refl).
  - destruct (decohereMeasuredBitsInDensityMatrix_spec tenthDensity 2 1 Hsq')
      as (_ & _ & _ & Hdiag & _).
    exact (Hdiag 0 ltac:(lia)).
Defined.

(** ** The fallback boundary *)

Lemma ErrorInjectionGate_shader_throws {Tex : Type} (inputTex controlTex : Tex) (qubit : Z) :
  ErrorInjectionGate_shader inputTex controlTex qubit
  = Throw (AppliedErrorInjectionGate qubit).
Proof. reflexivity. Qed.

Lemma timesNaN_zero_buffer (w h : Z) :
  rawBuffer (Matrix.timesNaN (Matrix.zero w h))
  = replicate (Z.to_nat (w * h * 2)) NaN.
Proof.
  unfold Matrix.timesNaN, Matrix.zero. cbn [rawBuffer].
  apply fmap_replicate.
Qed.

(** C1. [CircuitStats.fromCircuitAtTime(circuitDefinition, time)] never
    throws.  When the computation proper returns a snapshot, that snapshot
    is returned; when it throws, whatever the exception, one notification
    carrying the exception and the serialized circuit is sent and the call
    returns a snapshot with no densities, a NaN survival rate, an empty
    custom-statistics map, the circuit definition and time it was given,
    and a final state of width 1 and height [1 << numWires] whose floats
    are all NaN: for [numWires] up to 30 (where [1 << numWires] is
    [2^numWires]) a column vector of [2^numWires] NaN entries. *)
Theorem fromCircuitAtTime_never_throws {Custom Json : Type}
    (noFallback : CircuitDefinition -> number -> completion (CircuitStats Custom))
    (toJson : CircuitDefinition -> Json)
    (circuit : CircuitDefinition) (t : number) :
  (exists s, snd (fromCircuitAtTime noFallback toJson circuit t) = Return s)
  /\
  (forall s, noFallback circuit t = Return s ->
             fromCircuitAtTime noFallback toJson circuit t = ([], Return s))
  /\
  (forall ex, noFallback circuit t = Throw ex ->
     exists s,
       fromCircuitAtTime noFallback toJson circuit t
       = ([mkNotification "Defaulted to NaN results. Computing circuit values failed."
                          (toJson circuit) ex],
          Return s)
       /\ _qubitDensities s = []
       /\ postSelectionSurvivalRate s = NaN
       /\ _customStatsProcessed s = ∅
       /\ circuitDefinition s = circuit
       /\ time s = t
       /\ width (finalState s) = 1
       /\ height (finalState s) = JS.shl 1 (numWires circuit)
       /\ Forall (eq NaN) (rawBuffer (finalState s))
       /\ (0 <= numWires circuit <= 30 ->
           height (finalState s) = 2 ^ numWires circuit /\
           rawBuffer (finalState s)
           = replicate (Z.to_nat (2 ^ numWires circuit * 2)) NaN)).
Proof.
  unfold fromCircuitAtTime. split; [| split].
  - destruct (noFallback circuit t); simpl; eauto.
  - intros s ->. reflexivity.
  - intros ex ->. exists (nanStats circuit t).
    unfold nanStats. cbn [_qubitDensities postSelectionSurvivalRate
      _customStatsProcessed circuitDefinition time finalState].
    repeat (split; [reflexivity |]).
    split.
    + rewrite timesNaN_zero_buffer. apply Forall_replicate. reflexivity.
    + intros Hn. rewrite timesNaN_zero_buffer. cbn [height Matrix.timesNaN Matrix.zero].
      rewrite (shl_1_small _ Hn). split; [reflexivity |].
      f_equal. f_equal. lia.
Qed.

Lemma fromCircuitAtTime_never_throws_witness :
  exists s,
    snd (fromCircuitAtTime errorInjected (fun _ => "{}")
           (mkCircuitDefinition 2 [[Some ErrorInjectionGate_id; None]]) zero)
    = Return s
    /\ postSelectionSurvivalRate s = NaN
    /\ height (finalState s) = 4
    /\ rawBuffer (finalState s) = [NaN; NaN; NaN; NaN; NaN; NaN; NaN; NaN].
Proof.
  destruct (fromCircuitAtTime_never_throws errorInjected (fun _ => "{}")
              (mkCircuitDefinition 2 [[Some ErrorInjectionGate_id; None]]) zero)
    as (_ & _ & Hthrow).
  destruct (Hthrow (AppliedErrorInjectionGate 0) eq_refl)
    as (s & Hs & _ & Hrate & _ & _ & _ & _ & _ & _ & Hsmall).
  destruct Hsmall as [Hheight Hbuf]; [simpl; lia |].
  exists s. rewrite Hs. repeat split; assumption.
Defined.

(** ** Scattering the densities of a column *)

Example scatter_two_wires :
  scatterAndDecohereDensities [plusDensity] 2 1 2 2
  = Return [Some nanDensity;
            Some (mkMatrix 2 2 [half; zero; zero; zero; zero; zero; half; zero])].
Proof. reflexivity. Qed.

Section Scatter.
Variables (rawMatrices : list Matrix) (qubitSpan isMeasuredMask hasDisplayMask : Z).
Variable nanMat : Matrix.

(** Every stored matrix is the NaN matrix (wire without a display) or a raw
    matrix passed through [decohereMeasuredBitsInDensityMatrix] with the
    measured bits of its rows. *)
Lemma scatterRows_lookup rows :
  forall used out i row,
    scatterRows rawMatrices qubitSpan isMeasuredMask hasDisplayMask nanMat rows used
    = Return out ->
    rows !! i = Some row ->
    (JS.and hasDisplayMask (JS.shl 1 row) = 0 -> out !! i = Some (Some nanMat))
    /\
    (JS.and hasDisplayMask (JS.shl 1 row) <> 0 ->
     exists k m,
       decohereElement (at_index rawMatrices k)
         (JS.and (JS.shr isMeasuredMask row) (JS.shl 1 qubitSpan - 1)) = Return m
       /\ out !! i = Some m).
Proof.
  induction rows as [| r rest IH]; intros used out i row Hrun Hrow;
    [discriminate Hrow |].
  simpl in Hrun.
  destruct (Z.eqb_spec (JS.and hasDisplayMask (JS.shl 1 r)) 0) as [Hoff | Hon].
  - destruct (scatterRows _ _ _ _ _ rest used) as [out' |] eqn:Hrest;
      [| discriminate Hrun].
    injection Hrun as <-.
    destruct i as [| i]; simpl in Hrow.
    + injection Hrow as ->. split; [reflexivity | intros Hne; contradiction].
    + exact (IH used out' i row Hrest Hrow).
  - destruct (decohereElement _ _) as [m |] eqn:Hm; [| discriminate Hrun].
    simpl in Hrun.
    destruct (scatterRows _ _ _ _ _ rest (used + 1)) as [out' |] eqn:Hrest;
      [| discriminate Hrun].
    injection Hrun as <-.
    destruct i as [| i]; simpl in Hrow.
    + injection Hrow as ->. split; [intros Heq; contradiction |].
      intros _. exists used, m. split; [exact Hm | reflexivity].
    + exact (IH (used + 1) out' i row Hrest Hrow).
Qed.

Lemma scatterRows_length rows :
  forall used out,
    scatterRows rawMatrices qubitSpan isMeasuredMask hasDisplayMask nanMat rows used
    = Return out ->
    length out = length rows.
Proof.
  induction rows as [| r rest IH]; intros used out Hrun; simpl in Hrun.
  - injection Hrun as <-. reflexivity.
  - destruct (JS.and hasDisplayMask (JS.shl 1 r) =? 0).
    + destruct (scatterRows _ _ _ _ _ rest used) as [out' |] eqn:Hrest;
        [| discriminate Hrun].
      injection Hrun as <-. simpl. f_equal. exact (IH _ _ Hrest).
    + destruct (decohereElement _ _) as [m |]; [| discriminate Hrun].
      simpl in Hrun.
      destruct (scatterRows _ _ _ _ _ rest (used + 1)) as [out' |] eqn:Hrest;
        [| discriminate Hrun].
      injection Hrun as <-. simpl. f_equal. exact (IH _ _ Hrest).
Qed.

End Scatter.

(* ===================================================================== *)
(** * Further properties of the modelled code *)
(* ===================================================================== *)

(** ** More facts about the 32-bit operators *)

Module JSMore.
Import JS.

Lemma shiftCount_mod n : shiftCount n = n mod 32.
Proof.
  unfold shiftCount, toUint32. change 31 with (Z.ones 5).
  rewrite Z.land_ones by lia. change (2 ^ 5) with 32.
  apply Z.mod_mod_divide. exists (2 ^ 27). reflexivity.
Qed.

Lemma shiftCount_range n : 0 <= shiftCount n <= 31.
Proof.
  rewrite shiftCount_mod. pose proof (Z.mod_pos_bound n 32 eq_refl). lia.
Qed.

Lemma one_range : isInt32 1.
Proof. unfold isInt32. rewrite JSFacts.pow31. lia. Qed.

(** [1 << n] has exactly the bit [n mod 32] set. *)
Lemma shl_1_bit n k :
  0 <= k <= 31 -> Z.testbit (shl 1 n) k = (k =? n mod 32).
Proof.
  intros Hk. unfold shl.
  rewrite JSFacts.toInt32_testbit, Z.min_l by lia.
  rewrite (JSFacts.toInt32_id 1 one_range), Z.shiftl_1_l, shiftCount_mod.
  pose proof (Z.mod_pos_bound n 32 eq_refl).
  rewrite Z.pow2_bits_eqb by lia. apply Z.eqb_sym.
Qed.

Lemma shl_1_mod n : shl 1 (n mod 32) = shl 1 n.
Proof.
  unfold shl. rewrite !shiftCount_mod, Z.mod_mod by discriminate. reflexivity.
Qed.

(** [x & (1 << n)] is zero exactly when bit [n mod 32] of [x] is clear. *)
Lemma and_shl_eqb x n :
  (and x (shl 1 n) =? 0) = negb (Z.testbit x (n mod 32)).
Proof.
  pose proof (Z.mod_pos_bound n 32 eq_refl) as Hn.
  apply eq_true_iff_eq. rewrite Z.eqb_eq, negb_true_iff.
  rewrite (JSFacts.int32_eq_iff _ _ (JSFacts.and_range _ _) JSFacts.zero_range).
  split.
  - intros H. specialize (H (n mod 32) ltac:(lia)).
    rewrite JSFacts.and_bit, shl_1_bit, Z.eqb_refl, Z.bits_0, andb_true_r in H by lia.
    exact H.
  - intros H k Hk. rewrite JSFacts.and_bit, shl_1_bit, Z.bits_0 by lia.
    destruct (Z.eqb_spec k (n mod 32)) as [-> | _];
      [rewrite H; reflexivity | apply andb_false_r].
Qed.

Lemma or_comm a b : or a b = or b a.
Proof. unfold or. rewrite Z.lor_comm. reflexivity. Qed.

Lemma and_comm a b : and a b = and b a.
Proof. unfold and. rewrite Z.land_comm. reflexivity. Qed.

Lemma or_assoc a b c : or (or a b) c = or a (or b c).
Proof.
  apply JSFacts.int32_eq_iff; [apply JSFacts.or_range | apply JSFacts.or_range |].
  intros k Hk. rewrite !JSFacts.or_bit by assumption. symmetry. apply orb_assoc.
Qed.

Lemma or_diag a : isInt32 a -> or a a = a.
Proof.
  intros Ha. apply JSFacts.int32_eq_iff; [apply JSFacts.or_range | assumption |].
  intros k Hk. rewrite JSFacts.or_bit by assumption. apply orb_diag.
Qed.

(** A signed 32-bit integer is negative exactly when bit 31 is set. *)
Lemma negative_bit31 x : isInt32 x -> (x <? 0) = Z.testbit x 31.
Proof.
  intros Hx. rewrite <- (JSFacts.isInt32_sign_bits x 32 Hx) by lia.
  unfold isInt32 in Hx. rewrite JSFacts.pow31 in Hx.
  destruct (Z.ltb_spec x 0) as [Hneg | Hpos]; symmetry.
  - apply Z.bits_above_log2_neg; [lia |].
    destruct (Z.eq_dec (Z.pred (- x)) 0) as [-> | Hnz]; [simpl; lia |].
    apply Z.log2_lt_pow2; [lia |]. change (2 ^ 32) with 4294967296. lia.
  - destruct (Z.eq_dec x 0) as [-> | Hnz]; [apply Z.testbit_0_l |].
    apply Z.bits_above_log2; [lia |].
    apply Z.log2_lt_pow2; [lia |]. change (2 ^ 32) with 4294967296. lia.
Qed.

End JSMore.

(** ** Controls: equality, single bits and the algebra of [and] *)

Example toString_example :
  Controls.toString 10 (mkControls 5 1) = Some "Controls: ...__0_1"%string.
Proof. reflexivity. Qed.

(** [a.isEqualTo(b)] is true exactly when [a] and [b] hold the same two
    masks. *)
Lemma isEqualTo_iff (a b : Controls) :
  Controls.isEqualTo a b = true <-> a = b.
Proof.
  unfold Controls.isEqualTo. rewrite andb_true_iff, !Z.eqb_eq.
  destruct a as [ia da], b as [ib db]. cbn [inclusionMask desiredValueMask].
  split; [intros [-> ->]; reflexivity | intros H; inversion H; auto].
Qed.

(** The masks [Controls.bit] stores. *)
Lemma bit_Return bitIndex desiredValue :
  0 <= bitIndex ->
  Controls.bit bitIndex desiredValue
  = Return (mkControls (JS.shl 1 bitIndex)
                       (if desiredValue then JS.shl 1 bitIndex else 0)).
Proof.
  intros Hb. unfold Controls.bit.
  destruct (Z.ltb_spec bitIndex 0); [lia |].
  apply ControlsFacts.new_Return, ControlsFacts.desiresUnincluded_false.
  js_eq_bits. intros k Hk. js_bits Hk.
  destruct desiredValue; rewrite ?Z.bits_0;
    destruct (Z.testbit (JS.shl 1 bitIndex) k); reflexivity.
Qed.

(** X2. Reading back a single-bit control: for [bitIndex >= 0],
    [Controls.bit(bitIndex, v).desiredValueFor(j)] is [v] when [j] and
    [bitIndex] agree modulo 32 (bit indices wrap around at 32) and [null]
    for every other [j]. *)
Theorem bit_desiredValueFor (bitIndex : Z) (v : bool) (j : Z) :
  0 <= bitIndex ->
  exists c,
    Controls.bit bitIndex v = Return c /\
    Controls.desiredValueFor c j
    = if j mod 32 =? bitIndex mod 32 then Some v else None.
Proof.
  intros Hb. eexists. split; [apply (bit_Return bitIndex v Hb) |].
  pose proof (Z.mod_pos_bound j 32 eq_refl) as Hj.
  unfold Controls.desiredValueFor. cbn [inclusionMask desiredValueMask].
  rewrite !JSMore.and_shl_eqb, JSMore.shl_1_bit by lia.
  destruct (Z.eqb_spec (j mod 32) (bitIndex mod 32)) as [E | E]; simpl;
    [| reflexivity].
  destruct v; simpl.
  - rewrite JSMore.shl_1_bit, E, Z.eqb_refl by lia. reflexivity.
  - rewrite Z.bits_0. reflexivity.
Qed.

Lemma bit_desiredValueFor_witness :
  exists c,
    Controls.bit 3 true = Return c /\
    Controls.desiredValueFor c 35 = Some true.
Proof. apply (bit_desiredValueFor 3 true 35). lia. Defined.

(** X3. A single-bit control allows exactly the states whose bit agrees:
    for [bitIndex >= 0], [Controls.bit(bitIndex, v).allowsState(s)] is true
    exactly when bit [bitIndex mod 32] of [s] is [v]. *)
Theorem bit_allowsState (bitIndex : Z) (v : bool) (s : Z) :
  0 <= bitIndex ->
  exists c,
    Controls.bit bitIndex v = Return c /\
    Controls.allowsState c s = Bool.eqb (Z.testbit s (bitIndex mod 32)) v.
Proof.
  intros Hb. eexists. split; [apply (bit_Return bitIndex v Hb) |].
  pose proof (Z.mod_pos_bound bitIndex 32 eq_refl) as Hm.
  unfold Controls.allowsState. cbn [inclusionMask desiredValueMask].
  apply eq_true_iff_eq. rewrite Z.eqb_eq, eqb_true_iff.
  assert (Hd : JS.isInt32 (if v then JS.shl 1 bitIndex else 0))
    by (destruct v; [apply JSFacts.shl_range | apply JSFacts.zero_range]).
  js_eq_bits. split.
  - intros H. specialize (H (bitIndex mod 32) ltac:(lia)).
    rewrite JSFacts.and_bit, JSMore.shl_1_bit, Z.eqb_refl in H by lia.
    simpl in H. rewrite H. destruct v.
    + rewrite JSMore.shl_1_bit, Z.eqb_refl by lia. reflexivity.
    + apply Z.bits_0.
  - intros H k Hk. rewrite JSFacts.and_bit, JSMore.shl_1_bit by lia.
    destruct (Z.eqb_spec k (bitIndex mod 32)) as [-> | Hne]; simpl.
    + rewrite H. destruct v.
      * rewrite JSMore.shl_1_bit, Z.eqb_refl by lia. reflexivity.
      * symmetry. apply Z.bits_0.
    + destruct v.
      * rewrite JSMore.shl_1_bit by lia. symmetry. apply Z.eqb_neq, Hne.
      * symmetry. apply Z.bits_0.
Qed.

Lemma bit_allowsState_witness :
  exists c,
    Controls.bit 1 true = Return c /\
    Controls.allowsState c 6 = true.
Proof. apply (bit_allowsState 1 true 6). lia. Defined.

(** X4. For a Controls whose masks are 32-bit integers, [allowsState(s)]
    holds exactly when every bit position 0..31 is either unconstrained
    ([desiredValueFor] is [null]) or constrained to the bit that [s] has
    there. *)
Theorem allowsState_desiredValueFor (c : Controls) (s : Z) :
  Controls.intMasks c -> Controls.invariant c ->
  Controls.allowsState c s = true <->
  (forall k, 0 <= k <= 31 ->
     Controls.desiredValueFor c k = None \/
     Controls.desiredValueFor c k = Some (Z.testbit s k)).
Proof.
  intros [Hi Hd] Hinv. unfold Controls.allowsState, Controls.invariant in *.
  rewrite Z.eqb_eq. revert Hinv. repeat js_eq_bits. intros Hinv.
  assert (Hdv : forall k, 0 <= k <= 31 ->
            Controls.desiredValueFor c k
            = if Z.testbit (inclusionMask c) k
              then Some (Z.testbit (desiredValueMask c) k) else None).
  { intros k Hk. unfold Controls.desiredValueFor.
    rewrite !JSMore.and_shl_eqb, Z.mod_small by lia.
    destruct (Z.testbit (inclusionMask c) k); simpl; [| reflexivity].
    rewrite negb_involutive. reflexivity. }
  split.
  - intros H k Hk. rewrite (Hdv k Hk).
    generalize (H k Hk). js_bits Hk.
    destruct (Z.testbit (inclusionMask c) k); simpl; [| auto].
    intros ->. auto.
  - intros H k Hk. generalize (H k Hk) (Hinv k Hk). rewrite (Hdv k Hk). js_bits Hk.
    destruct (Z.testbit (inclusionMask c) k), (Z.testbit (desiredValueMask c) k),
      (Z.testbit s k); simpl; intros [? | ?] ?; congruence.
Qed.

Lemma allowsState_desiredValueFor_witness :
  Controls.allowsState (mkControls 5 1) 9 = true <->
  (forall k, 0 <= k <= 31 ->
     Controls.desiredValueFor (mkControls 5 1) k = None \/
     Controls.desiredValueFor (mkControls 5 1) k = Some (Z.testbit 9 k)).
Proof.
  apply (allowsState_desiredValueFor (mkControls 5 1) 9).
  - unfold Controls.intMasks, JS.isInt32; simpl; lia.
  - reflexivity.
Defined.

Lemma contradicts_sym a b : Controls.contradicts a b = Controls.contradicts b a.
Proof.
  unfold Controls.contradicts. f_equal. apply Z.eqb_sym.
Qed.

(** X5. [and] is commutative: [a.and(b)] returns a value exactly when
    [b.and(a)] returns that value, and one throws the contradiction error
    exactly when the other does. *)
Theorem and_commutative (a b : Controls) :
  (forall c, Controls.and a b = Return c <-> Controls.and b a = Return c)
  /\
  (Controls.and a b = Throw (ContradictoryControls a b) <->
   Controls.and b a = Throw (ContradictoryControls b a)).
Proof.
  assert (Hswap : forall x y c, Controls.and x y = Return c -> Controls.and y x = Return c).
  { intros x y c. unfold Controls.and. rewrite (contradicts_sym y x).
    destruct (Controls.contradicts x y); [discriminate |].
    rewrite (JSMore.or_comm (inclusionMask y)), (JSMore.or_comm (desiredValueMask y)).
    auto. }
  split.
  - intros c. split; apply Hswap.
  - unfold Controls.and. rewrite (contradicts_sym b a).
    destruct (Controls.contradicts a b); [split; reflexivity |].
    unfold Controls.new.
    split; intros H; repeat destruct (Controls.desiresUnincluded _ _);
      discriminate H.
Qed.

(** The per-bit content of "[a.and(b)] returns [r]" for values that
    satisfy the invariant. *)
Lemma and_Return_iff a b r :
  Controls.invariant a -> Controls.invariant b ->
  Controls.and a b = Return r <->
  JS.and (desiredValueMask b) (inclusionMask a)
  = JS.and (desiredValueMask a) (inclusionMask b)
  /\ r = mkControls (JS.or (inclusionMask a) (inclusionMask b))
                    (JS.or (desiredValueMask a) (desiredValueMask b)).
Proof.
  intros Ha Hb. split.
  - intros H. apply ControlsFacts.and_inv in H as (E & -> & _). auto.
  - intros [E ->]. unfold Controls.and.
    rewrite (proj2 (ControlsFacts.contradicts_false a b) E).
    apply ControlsFacts.new_Return, ControlsFacts.desiresUnincluded_false.
    apply ControlsFacts.merged_invariant; assumption.
Qed.

(** X6. [and] is associative on Controls values: [a.and(b).and(c)] returns
    [r] exactly when [a.and(b.and(c))] returns [r] (and so one of them
    throws exactly when the other does). *)
Theorem and_associative (a b c r : Controls) :
  Controls.invariant a -> Controls.invariant b -> Controls.invariant c ->
  (ab ← Controls.and a b; Controls.and ab c) = Return r <->
  (bc ← Controls.and b c; Controls.and a bc) = Return r.
Proof.
  intros Ha Hb Hc.
  set (ab := mkControls (JS.or (inclusionMask a) (inclusionMask b))
                        (JS.or (desiredValueMask a) (desiredValueMask b))).
  set (bc := mkControls (JS.or (inclusionMask b) (inclusionMask c))
                        (JS.or (desiredValueMask b) (desiredValueMask c))).
  assert (Hab : Controls.invariant ab) by (apply ControlsFacts.merged_invariant; assumption).
  assert (Hbc : Controls.invariant bc) by (apply ControlsFacts.merged_invariant; assumption).
  assert (HL : (x ← Controls.and a b; Controls.and x c) = Return r <->
               Controls.and a b = Return ab /\ Controls.and ab c = Return r).
  { split.
    - destruct (Controls.and a b) as [x |] eqn:E; [| discriminate].
      apply (and_Return_iff a b x Ha Hb) in E as [E ->]. simpl. fold ab.
      intros H. split; [reflexivity | exact H].
    - intros [-> H]. exact H. }
  assert (HR : (x ← Controls.and b c; Controls.and a x) = Return r <->
               Controls.and b c = Return bc /\ Controls.and a bc = Return r).
  { split.
    - destruct (Controls.and b c) as [x |] eqn:E; [| discriminate].
      apply (and_Return_iff b c x Hb Hc) in E as [E ->]. simpl. fold bc.
      intros H. split; [reflexivity | exact H].
    - intros [-> H]. exact H. }
  rewrite HL, HR.
  rewrite (and_Return_iff a b ab Ha Hb), (and_Return_iff ab c r Hab Hc),
          (and_Return_iff b c bc Hb Hc), (and_Return_iff a bc r Ha Hbc).
  subst ab bc. cbn [inclusionMask desiredValueMask].
  rewrite !JSMore.or_assoc.
  unfold Controls.invariant in Ha, Hb, Hc. revert Ha Hb Hc.
  repeat js_eq_bits. intros Ha Hb Hc.
  split.
  - intros ((E1 & _) & E2 & ->). repeat split; try reflexivity; intros k Hk;
      generalize (E1 k Hk) (E2 k Hk) (Ha k Hk) (Hb k Hk) (Hc k Hk); js_bits Hk;
      destruct (Z.testbit (desiredValueMask a) k), (Z.testbit (desiredValueMask b) k),
        (Z.testbit (desiredValueMask c) k), (Z.testbit (inclusionMask a) k),
        (Z.testbit (inclusionMask b) k), (Z.testbit (inclusionMask c) k);
      simpl; congruence.
  - intros ((E1 & _) & E2 & ->). repeat split; try reflexivity; intros k Hk;
      generalize (E1 k Hk) (E2 k Hk) (Ha k Hk) (Hb k Hk) (Hc k Hk); js_bits Hk;
      destruct (Z.testbit (desiredValueMask a) k), (Z.testbit (desiredValueMask b) k),
        (Z.testbit (desiredValueMask c) k), (Z.testbit (inclusionMask a) k),
        (Z.testbit (inclusionMask b) k), (Z.testbit (inclusionMask c) k);
      simpl; congruence.
Qed.

Lemma and_associative_witness :
  (bc ← Controls.and (mkControls 2 0) (mkControls 4 4);
   Controls.and (mkControls 1 1) bc) = Return (mkControls 7 5).
Proof.
  apply (proj1 (and_associative (mkControls 1 1) (mkControls 2 0) (mkControls 4 4)
                          (mkControls 7 5) eq_refl eq_refl eq_refl)).
  reflexivity.
Defined.

(** X7. [and] is idempotent: for a Controls [c] whose masks are 32-bit
    integers, [c.and(c)] returns [c]. *)
Theorem and_idempotent (c : Controls) :
  Controls.intMasks c -> Controls.invariant c ->
  Controls.and c c = Return c.
Proof.
  intros [Hi Hd] Hinv. apply (and_Return_iff c c c Hinv Hinv).
  split; [reflexivity |].
  rewrite !JSMore.or_diag by assumption. destruct c; reflexivity.
Qed.

Lemma and_idempotent_witness :
  Controls.and (mkControls 5 4) (mkControls 5 4) = Return (mkControls 5 4).
Proof.
  apply (and_idempotent (mkControls 5 4)).
  - unfold Controls.intMasks, JS.isInt32; simpl; lia.
  - reflexivity.
Defined.

(** X8. The conjunction of two Controls counts its included bits as
    [Infinity] exactly when one of the two does (masks being 32-bit
    integers): [a.and(b).includedBitCount()] is [Infinity] iff
    [a.includedBitCount()] or [b.includedBitCount()] is; in particular a
    control on bit 31 always counts as [Infinity]. *)
Theorem includedBitCount_and (numberOfSetBits : Z -> Z) (a b ab : Controls) :
  Controls.intMasks a -> Controls.intMasks b ->
  Controls.and a b = Return ab ->
  Controls.includedBitCount numberOfSetBits ab = Infinity <->
  Controls.includedBitCount numberOfSetBits a = Infinity \/
  Controls.includedBitCount numberOfSetBits b = Infinity.
Proof.
  intros [Hia _] [Hib _] H. apply ControlsFacts.and_inv in H as (_ & -> & _).
  unfold Controls.includedBitCount. cbn [inclusionMask].
  rewrite (JSMore.negative_bit31 _ (JSFacts.or_range _ _)),
          (JSMore.negative_bit31 _ Hia), (JSMore.negative_bit31 _ Hib).
  rewrite JSFacts.or_bit by lia.
  destruct (Z.testbit (inclusionMask a) 31), (Z.testbit (inclusionMask b) 31);
    simpl; split; intros; try tauto; try discriminate;
    match goal with H : _ \/ _ |- _ => destruct H; discriminate end.
Qed.

Lemma includedBitCount_and_witness :
  Controls.includedBitCount (fun _ => 0) (mkControls (- 2 ^ 31 + 1) 1) = Infinity <->
  Controls.includedBitCount (fun _ => 0) (mkControls (- 2 ^ 31) 0) = Infinity \/
  Controls.includedBitCount (fun _ => 0) (mkControls 1 1) = Infinity.
Proof.
  apply (includedBitCount_and (fun _ => 0) (mkControls (- 2 ^ 31) 0) (mkControls 1 1)).
  - unfold Controls.intMasks, JS.isInt32; simpl; lia.
  - unfold Controls.intMasks, JS.isInt32; simpl; lia.
  - reflexivity.
Defined.

(** ** Controls: [toString] *)

(** The value of [1 << i]: a power of two, or the sign bit. *)
Lemma shl_1_value (i : Z) :
  JS.shl 1 i = if i mod 32 =? 31 then - 2 ^ 31 else 2 ^ (i mod 32).
Proof.
  pose proof (Z.mod_pos_bound i 32 eq_refl) as Hi.
  rewrite <- JSMore.shl_1_mod.
  destruct (Z.eqb_spec (i mod 32) 31) as [-> | Hne]; [reflexivity |].
  apply shl_1_small. lia.
Qed.

Lemma shl_1_le (i : Z) : JS.shl 1 i <= 2 ^ 30.
Proof.
  pose proof (Z.mod_pos_bound i 32 eq_refl) as Hi.
  rewrite shl_1_value. destruct (Z.eqb_spec (i mod 32) 31); [simpl; lia |].
  apply Z.pow_le_mono_r; lia.
Qed.

Lemma naturalsWhile_forever (p : Z -> bool) :
  (forall j, p j = true) ->
  forall fuel i, Controls.naturalsWhile fuel p i = None.
Proof.
  intros Hp fuel. induction fuel as [| fuel IH]; intros i; simpl; [reflexivity |].
  rewrite Hp, IH. reflexivity.
Qed.

Lemma naturalsWhile_seqZ (p : Z -> bool) (n : nat) :
  forall i fuel,
    (n < fuel)%nat ->
    (forall j, i <= j < i + Z.of_nat n -> p j = true) ->
    p (i + Z.of_nat n) = false ->
    Controls.naturalsWhile fuel p i = Some (seqZ i (Z.of_nat n)).
Proof.
  induction n as [| n IH]; intros i fuel Hfuel Htrue Hfalse;
    (destruct fuel as [| fuel]; [lia |]); simpl.
  - rewrite Z.add_0_r in Hfalse. rewrite Hfalse. reflexivity.
  - rewrite (Htrue i) by lia.
    rewrite (IH (i + 1) fuel); [| lia | intros j Hj; apply Htrue; lia |].
    + simpl. rewrite (seqZ_cons i (Z.of_nat (S n))) by lia.
      do 3 f_equal; lia.
    + rewrite <- Hfalse. f_equal. lia.
Qed.

(** X9. [toString] of a Controls whose inclusion mask lies in
    [1 .. 2^30 - 1] returns: "Controls: ...__" followed by one character
    per bit position from the highest set bit of the inclusion mask down
    to 0 ("_" not included, "1"/"0" the desired value); the mask 0 gives
    "No Controls". *)
Theorem toString_bits (c : Controls) (fuel : nat) :
  0 < inclusionMask c < 2 ^ 30 ->
  (Z.to_nat (Z.log2 (inclusionMask c)) + 1 < fuel)%nat ->
  Controls.toString fuel c
  = Some ("Controls: ...__"
          +:+ String.concat ""
                (reverse (Controls.describeBit <$>
                            (Controls.desiredValueFor c <$>
                               seqZ 0 (Z.log2 (inclusionMask c) + 1))))).
Proof.
  intros Hm Hfuel. unfold Controls.toString.
  destruct (Z.eqb_spec (inclusionMask c) 0) as [? | _]; [lia |].
  pose proof (Z.log2_nonneg (inclusionMask c)) as Hl0.
  pose proof (Z.log2_spec (inclusionMask c) ltac:(lia)) as [Hlo Hhi].
  assert (Hl : Z.log2 (inclusionMask c) < 30)
    by (apply Z.log2_lt_pow2; lia).
  rewrite (naturalsWhile_seqZ _ (Z.to_nat (Z.log2 (inclusionMask c) + 1)) 0 fuel).
  - rewrite Z2Nat.id by lia. reflexivity.
  - lia.
  - intros j Hj. apply Z.leb_le. rewrite shl_1_small by lia.
    apply Z.le_trans with (2 ^ Z.log2 (inclusionMask c)); [| exact Hlo].
    apply Z.pow_le_mono_r; lia.
  - rewrite Z2Nat.id, Z.add_0_l by lia. apply Z.leb_gt.
    rewrite shl_1_small by lia. exact Hhi.
Qed.

Lemma toString_bits_witness :
  Controls.toString 10 (mkControls 5 1) = Some "Controls: ...__0_1"%string.
Proof.
  apply (toString_bits (mkControls 5 1) 10); simpl; lia.
Defined.

(** X10. [toString] of a Controls with a negative inclusion mask (bit 31
    included) prints no bit at all: [1 << 0] already exceeds the mask, so
    the result is "Controls: ...__". *)
Theorem toString_negative_mask (c : Controls) (fuel : nat) :
  inclusionMask c < 0 ->
  Controls.toString (S fuel) c = Some "Controls: ...__"%string.
Proof.
  intros Hm. unfold Controls.toString.
  destruct (Z.eqb_spec (inclusionMask c) 0) as [? | _]; [lia |].
  simpl. change (JS.shl 1 0) with 1.
  destruct (Z.leb_spec 1 (inclusionMask c)); [lia | reflexivity].
Qed.

Lemma toString_negative_mask_witness :
  Controls.toString 1 (mkControls (- 2 ^ 31) (- 2 ^ 31))
  = Some "Controls: ...__"%string.
Proof. apply (toString_negative_mask (mkControls (- 2 ^ 31) (- 2 ^ 31)) 0). simpl. lia. Defined.

(** X11. [toString] of a Controls whose inclusion mask is [2^30] or more
    never returns: every [1 << i] is at most [2^30], so the [takeWhile]
    over the naturals never ends, whatever the number of steps. *)
Theorem toString_diverges (c : Controls) :
  2 ^ 30 <= inclusionMask c ->
  forall fuel, Controls.toString fuel c = None.
Proof.
  intros Hm fuel. unfold Controls.toString.
  destruct (Z.eqb_spec (inclusionMask c) 0) as [E | _];
    [rewrite E in Hm; simpl in Hm; lia |].
  rewrite naturalsWhile_forever; [reflexivity |].
  intros j. apply Z.leb_le. pose proof (shl_1_le j). lia.
Qed.

Lemma toString_diverges_witness :
  Controls.toString 1000 (mkControls (2 ^ 30) 0) = None.
Proof. apply (toString_diverges (mkControls (2 ^ 30) 0)). simpl. lia. Defined.

(** ** Scattering the densities of a column, continued *)

Section ScatterRank.
Variables (rawMatrices : list Matrix) (qubitSpan isMeasuredMask hasDisplayMask : Z).
Variable nanMat : Matrix.

(** The matrix stored for a displayed row is the raw matrix at the position
    the counter has reached, passed through the decoherence. *)
Lemma scatterRows_displayed rows :
  forall used out i row,
    scatterRows rawMatrices qubitSpan isMeasuredMask hasDisplayMask nanMat rows used
    = Return out ->
    rows !! i = Some row ->
    hasDisplay hasDisplayMask row = true ->
    exists m,
      decohereElement
        (at_index rawMatrices
           (used + Z.of_nat (length (List.filter (hasDisplay hasDisplayMask)
                                                 (take i rows)))))
        (JS.and (JS.shr isMeasuredMask row) (JS.shl 1 qubitSpan - 1)) = Return m
      /\ out !! i = Some m.
Proof.
  induction rows as [| r rest IH]; intros used out i row Hrun Hrow Hdisp;
    [discriminate Hrow |].
  simpl in Hrun. unfold hasDisplay in *.
  destruct (JS.and hasDisplayMask (JS.shl 1 r) =? 0) eqn:Hr.
  - destruct (scatterRows _ _ _ _ _ rest used) as [out' |] eqn:Hrest;
      [| discriminate Hrun].
    injection Hrun as <-.
    destruct i as [| i]; simpl in Hrow.
    + injection Hrow as ->. rewrite Hr in Hdisp. discriminate Hdisp.
    + simpl. rewrite Hr. simpl. exact (IH used out' i row Hrest Hrow Hdisp).
  - destruct (decohereElement _ _) as [m |] eqn:Hm; [| discriminate Hrun].
    simpl in Hrun.
    destruct (scatterRows _ _ _ _ _ rest (used + 1)) as [out' |] eqn:Hrest;
      [| discriminate Hrun].
    injection Hrun as <-.
    destruct i as [| i]; simpl in Hrow.
    + injection Hrow as ->. exists m. simpl. rewrite Z.add_0_r. auto.
    + simpl. rewrite Hr. simpl.
      destruct (IH (used + 1) out' i row Hrest Hrow Hdisp) as (m' & Hm' & Hout).
      exists m'. split; [| exact Hout].
      rewrite <- Hm'. do 2 f_equal. lia.
Qed.

(** Nothing throws when every displayed row with measured bits finds its
    raw matrix. *)
Lemma scatterRows_returns rows :
  forall used,
    0 <= used ->
    (forall i row,
        rows !! i = Some row ->
        hasDisplay hasDisplayMask row = true ->
        JS.and (JS.shr isMeasuredMask row) (JS.shl 1 qubitSpan - 1) <> 0 ->
        used + Z.of_nat (length (List.filter (hasDisplay hasDisplayMask) (take i rows)))
        < len rawMatrices) ->
    exists out,
      scatterRows rawMatrices qubitSpan isMeasuredMask hasDisplayMask nanMat rows used
      = Return out.
Proof.
  induction rows as [| r rest IH]; intros used Hused Hraw; simpl; [eauto |].
  destruct (JS.and hasDisplayMask (JS.shl 1 r) =? 0) eqn:Hr.
  - destruct (IH used Hused) as [out ->]; [| simpl; eauto].
    intros i row Hrow Hd Hm. specialize (Hraw (S i) row Hrow Hd Hm).
    simpl in Hraw. unfold hasDisplay at 1 in Hraw. rewrite Hr in Hraw. exact Hraw.
  - assert (Hel : exists m,
              decohereElement (at_index rawMatrices used)
                (JS.and (JS.shr isMeasuredMask r) (JS.shl 1 qubitSpan - 1)) = Return m).
    { destruct (Z.eqb_spec (JS.and (JS.shr isMeasuredMask r) (JS.shl 1 qubitSpan - 1)) 0)
        as [E | E].
      - unfold decohereElement. rewrite E.
        destruct (at_index rawMatrices used); simpl; eauto.
      - specialize (Hraw 0%nat r eq_refl). simpl in Hraw.
        unfold hasDisplay at 1 in Hraw. rewrite Hr in Hraw.
        specialize (Hraw eq_refl E).
        destruct (at_index_Some rawMatrices used) as [m ->]; [lia |].
        simpl. eauto. }
    destruct Hel as [m ->]. simpl.
    destruct (IH (used + 1)) as [out ->]; [lia | | simpl; eauto].
    intros i row Hrow Hd Hm. specialize (Hraw (S i) row Hrow Hd Hm).
    simpl in Hraw. unfold hasDisplay at 1 in Hraw. rewrite Hr in Hraw.
    simpl in Hraw. lia.
Qed.

(** The only exception is the [TypeError] of the decoherence. *)
Lemma scatterRows_throws rows :
  forall used e,
    scatterRows rawMatrices qubitSpan isMeasuredMask hasDisplayMask nanMat rows used
    = Throw e ->
    e = TypeError.
Proof.
  induction rows as [| r rest IH]; intros used e Hrun; simpl in Hrun;
    [discriminate Hrun |].
  destruct (JS.and hasDisplayMask (JS.shl 1 r) =? 0).
  - destruct (scatterRows _ _ _ _ _ rest used) as [out' |] eqn:Hrest;
      [discriminate Hrun |].
    injection Hrun as <-. exact (IH _ _ Hrest).
  - destruct (decohereElement _ _) as [m |] eqn:Hm.
    + simpl in Hrun.
      destruct (scatterRows _ _ _ _ _ rest (used + 1)) as [out' |] eqn:Hrest;
        [discriminate Hrun |].
      injection Hrun as <-. exact (IH _ _ Hrest).
    + injection Hrun as <-. unfold decohereElement in Hm.
      destruct (at_index rawMatrices used); [discriminate Hm |].
      destruct (_ =? 0); [discriminate Hm |]. injection Hm as <-. reflexivity.
Qed.

End ScatterRank.

Lemma take_seqZ (row n : Z) :
  0 <= row <= n -> take (Z.to_nat row) (seqZ 0 n) = seqZ 0 row.
Proof.
  intros H. replace n with (row + (n - row)) by lia.
  rewrite seqZ_app by lia.
  rewrite <- (length_seqZ 0 row) at 1. apply take_app_length.
Qed.

(** X12. When [scatterAndDecohereDensities] returns, its array has one
    element per row [0 .. numWires - qubitSpan]; the element of a row
    without a display is the all-NaN matrix of side [1 << qubitSpan], and
    the element of a row with a display is the raw matrix whose index is
    the number of displayed rows before it, passed through
    [decohereMeasuredBitsInDensityMatrix] with the mask
    [(isMeasuredMask >> row) & ((1 << qubitSpan) - 1)]. *)
Theorem scatterAndDecohereDensities_rows
    (rawMatrices : list Matrix) (numWires qubitSpan isMeasuredMask hasDisplayMask : Z)
    (out : list (option Matrix)) :
  scatterAndDecohereDensities rawMatrices numWires qubitSpan isMeasuredMask hasDisplayMask
  = Return out ->
  len out = Z.max 0 (numWires - qubitSpan + 1)
  /\
  (forall row, 0 <= row < numWires - qubitSpan + 1 ->
     if hasDisplay hasDisplayMask row
     then
       exists m,
         decohereElement
           (at_index rawMatrices (displaysBefore hasDisplayMask row))
           (JS.and (JS.shr isMeasuredMask row) (JS.shl 1 qubitSpan - 1)) = Return m
         /\ at_index out row = Some m
     else
       at_index out row
       = Some (Some (Matrix.timesNaN
                       (Matrix.zero (JS.shl 1 qubitSpan) (JS.shl 1 qubitSpan))))).
Proof.
  unfold scatterAndDecohereDensities. cbv zeta. intros Hrun. split.
  - unfold len. rewrite (scatterRows_length _ _ _ _ _ _ _ _ Hrun), length_seqZ. lia.
  - intros row Hrow.
    assert (Hlk : seqZ 0 (numWires - qubitSpan + 1) !! Z.to_nat row = Some row).
    { rewrite lookup_seqZ_lt by lia. f_equal. lia. }
    assert (Hat : at_index out row = out !! Z.to_nat row).
    { unfold at_index. destruct (Z.ltb_spec row 0); [lia | reflexivity]. }
    rewrite Hat.
    destruct (hasDisplay hasDisplayMask row) eqn:Hd.
    + destruct (scatterRows_displayed _ _ _ _ _ _ _ _ _ _ Hrun Hlk Hd)
        as (m & Hm & Hout).
      exists m. split; [| exact Hout].
      rewrite take_seqZ, Z.add_0_l in Hm by lia. exact Hm.
    + apply (scatterRows_lookup _ _ _ _ _ _ _ _ _ _ Hrun Hlk).
      unfold hasDisplay in Hd. apply negb_false_iff, Z.eqb_eq in Hd. exact Hd.
Qed.

Lemma scatterAndDecohereDensities_rows_witness :
  len [Some nanDensity;
       Some (mkMatrix 2 2 [half; zero; zero; zero; zero; zero; half; zero])]
  = Z.max 0 (2 - 1 + 1).
Proof.
  apply (scatterAndDecohereDensities_rows [plusDensity] 2 1 2 2). reflexivity.
Defined.

(** X13. [scatterAndDecohereDensities] returns exactly when every row that
    has a display and measured bits finds its raw matrix (the index it
    reads, the number of displayed rows before it, is inside
    [rawMatrices]); otherwise the decoherence dereferences [undefined] and
    the call throws a [TypeError], the only exception it can throw. *)
Theorem scatterAndDecohereDensities_returns_iff
    (rawMatrices : list Matrix) (numWires qubitSpan isMeasuredMask hasDisplayMask : Z) :
  ((exists out,
      scatterAndDecohereDensities rawMatrices numWires qubitSpan isMeasuredMask
        hasDisplayMask = Return out)
   <->
   (forall row, 0 <= row < numWires - qubitSpan + 1 ->
      hasDisplay hasDisplayMask row = true ->
      JS.and (JS.shr isMeasuredMask row) (JS.shl 1 qubitSpan - 1) <> 0 ->
      displaysBefore hasDisplayMask row < len rawMatrices))
  /\
  (forall e,
      scatterAndDecohereDensities rawMatrices numWires qubitSpan isMeasuredMask
        hasDisplayMask = Throw e ->
      e = TypeError).
Proof.
  unfold scatterAndDecohereDensities. cbv zeta. split; [split |].
  - intros [out Hrun] row Hrow Hd Hm.
    assert (Hlk : seqZ 0 (numWires - qubitSpan + 1) !! Z.to_nat row = Some row).
    { rewrite lookup_seqZ_lt by lia. f_equal. lia. }
    destruct (scatterRows_displayed _ _ _ _ _ _ _ _ _ _ Hrun Hlk Hd)
      as (m & Hel & _).
    rewrite take_seqZ, Z.add_0_l in Hel by lia. fold (displaysBefore hasDisplayMask row) in Hel.
    destruct (Z_lt_le_dec (displaysBefore hasDisplayMask row) (len rawMatrices))
      as [Hlt | Hge]; [exact Hlt |].
    rewrite at_index_None in Hel by lia. simpl in Hel.
    apply Z.eqb_neq in Hm. rewrite Hm in Hel. discriminate Hel.
  - intros Hraw. apply scatterRows_returns; [lia |].
    intros i row Hrow Hd Hm. apply lookup_seqZ in Hrow as [-> Hi].
    rewrite Z.add_0_l in *.
    specialize (Hraw (Z.of_nat i) ltac:(lia) Hd Hm).
    rewrite <- (Nat2Z.id i) at 1. rewrite take_seqZ by lia. exact Hraw.
  - intros e. apply scatterRows_throws.
Qed.

Lemma scatterAndDecohereDensities_returns_iff_witness :
  scatterAndDecohereDensities [] 1 1 1 1 = Throw TypeError.
Proof.
  destruct (scatterAndDecohereDensities [] 1 1 1 1) as [out | e] eqn:Hrun.
  - exfalso.
    pose proof (proj1 (proj1 (scatterAndDecohereDensities_returns_iff [] 1 1 1 1))
                  (ex_intro _ out Hrun) 0 ltac:(lia) eq_refl) as H.
    assert (Hm : JS.and (JS.shr 1 0) (JS.shl 1 1 - 1) <> 0)
      by (vm_compute; discriminate).
    specialize (H Hm). vm_compute in H. discriminate H.
  - f_equal.
    exact (proj2 (scatterAndDecohereDensities_returns_iff [] 1 1 1 1) e Hrun).
Defined.

Lemma hasDisplay_testbit (hasDisplayMask row : Z) :
  hasDisplay hasDisplayMask row = Z.testbit hasDisplayMask (row mod 32).
Proof.
  unfold hasDisplay. rewrite JSMore.and_shl_eqb. apply negb_involutive.
Qed.

Lemma displaysBefore_all (row : Z) : 0 <= row -> displaysBefore (-1) row = row.
Proof.
  intros Hrow. unfold displaysBefore.
  rewrite (List.forallb_filter_id (hasDisplay (-1)) (seqZ 0 row)).
  - rewrite length_seqZ. lia.
  - apply forallb_forall. intros r _. rewrite hasDisplay_testbit.
    pose proof (Z.mod_pos_bound r 32 eq_refl).
    apply Z.bits_m1. lia.
Qed.

(** X14. With [hasDisplayMask = -1] (the column after the last one, where
    every wire has a display) no row gets the NaN matrix: when
    [scatterAndDecohereDensities] returns, the element of row [i] is the
    raw matrix [i] passed through the decoherence. *)
Theorem scatterAndDecohereDensities_all_displayed
    (rawMatrices : list Matrix) (numWires qubitSpan isMeasuredMask : Z)
    (out : list (option Matrix)) (row : Z) :
  scatterAndDecohereDensities rawMatrices numWires qubitSpan isMeasuredMask (-1)
  = Return out ->
  0 <= row < numWires - qubitSpan + 1 ->
  exists m,
    decohereElement (at_index rawMatrices row)
      (JS.and (JS.shr isMeasuredMask row) (JS.shl 1 qubitSpan - 1)) = Return m
    /\ at_index out row = Some m.
Proof.
  unfold scatterAndDecohereDensities. cbv zeta. intros Hrun Hrow.
  assert (Hlk : seqZ 0 (numWires - qubitSpan + 1) !! Z.to_nat row = Some row).
  { rewrite lookup_seqZ_lt by lia. f_equal. lia. }
  assert (Hd : hasDisplay (-1) row = true).
  { rewrite hasDisplay_testbit. pose proof (Z.mod_pos_bound row 32 eq_refl).
    apply Z.bits_m1. lia. }
  destruct (scatterRows_displayed _ _ _ _ _ _ _ _ _ _ Hrun Hlk Hd) as (m & Hm & Hout).
  rewrite take_seqZ, Z.add_0_l in Hm by lia.
  fold (displaysBefore (-1) row) in Hm. rewrite displaysBefore_all in Hm by lia.
  exists m. split; [exact Hm |].
  unfold at_index. destruct (Z.ltb_spec row 0); [lia | exact Hout].
Qed.

Lemma scatterAndDecohereDensities_all_displayed_witness :
  exists m,
    decohereElement (at_index [plusDensity; offDensity] 1)
      (JS.and (JS.shr 1 1) (JS.shl 1 1 - 1)) = Return m
    /\ at_index [Some (mkMatrix 2 2 [half; zero; zero; zero; zero; zero; half; zero]);
                 Some offDensity] 1 = Some m.
Proof.
  apply (scatterAndDecohereDensities_all_displayed [plusDensity; offDensity] 2 1 1);
    [reflexivity | lia].
Defined.

(** [(isMeasuredMask >> row) & ((1 << 1) - 1)] is the measured bit of the row. *)
Lemma measured_bit (isMeasuredMask row : Z) :
  JS.and (JS.shr isMeasuredMask row) (JS.shl 1 1 - 1)
  = Z.b2z (Z.testbit isMeasuredMask (row mod 32)).
Proof.
  pose proof (Z.mod_pos_bound row 32 eq_refl) as Hr.
  change (JS.shl 1 1 - 1) with 1.
  apply JSFacts.int32_eq_iff; [apply JSFacts.and_range | |].
  { destruct (Z.testbit isMeasuredMask (row mod 32)); simpl;
      [apply JSMore.one_range | apply JSFacts.zero_range]. }
  intros k Hk. rewrite JSFacts.and_bit by assumption.
  assert (Hone : Z.testbit 1 k = (k =? 0)).
  { change 1 with (2 ^ 0). rewrite Z.pow2_bits_eqb by lia. apply Z.eqb_sym. }
  rewrite Hone. destruct (Z.eqb_spec k 0) as [-> | Hk0].
  - rewrite andb_true_r. unfold JS.shr.
    rewrite JSFacts.toInt32_testbit by lia. change (Z.min 0 31) with 0.
    rewrite Z.shiftr_spec, Z.add_0_l by lia.
    rewrite JSMore.shiftCount_mod, JSFacts.toInt32_testbit, Z.min_l by lia.
    destruct (Z.testbit isMeasuredMask (row mod 32)); reflexivity.
  - rewrite andb_false_r.
    destruct (Z.testbit isMeasuredMask (row mod 32)); simpl.
    + rewrite Hone. reflexivity.
    + symmetry. apply Z.bits_0.
Qed.

(** X15. Measured qubits report no coherence: for single-qubit densities
    ([qubitSpan = 1]), when [scatterAndDecohereDensities] returns, the
    matrix stored for a wire that has a display and is measured is the raw
    2x2 matrix with both off-diagonal entries zeroed and the diagonal
    entries rounded to single precision (the copy through
    [Float32Array]); the diagonal is the raw one when the raw matrix holds
    single-precision values. *)
Theorem scatterAndDecohereDensities_measured
    (rawMatrices : list Matrix) (numWires isMeasuredMask hasDisplayMask : Z)
    (out : list (option Matrix)) (row : Z) :
  scatterAndDecohereDensities rawMatrices numWires 1 isMeasuredMask hasDisplayMask
  = Return out ->
  0 <= row < numWires ->
  Z.testbit hasDisplayMask (row mod 32) = true ->
  Z.testbit isMeasuredMask (row mod 32) = true ->
  exists M m,
    at_index rawMatrices (displaysBefore hasDisplayMask row) = Some M
    /\ at_index out row = Some (Some m)
    /\ (Matrix.square M 2 ->
        Matrix.entry m 0 1 = (Some zero, Some zero) /\
        Matrix.entry m 1 0 = (Some zero, Some zero) /\
        Matrix.entry m 0 0 = froundEntry (Matrix.entry M 0 0) /\
        Matrix.entry m 1 1 = froundEntry (Matrix.entry M 1 1) /\
        (Matrix.singlePrecision M ->
         Matrix.entry m 0 0 = Matrix.entry M 0 0 /\
         Matrix.entry m 1 1 = Matrix.entry M 1 1)).
Proof.
  unfold scatterAndDecohereDensities. cbv zeta. intros Hrun Hrow Hdisp Hmeas.
  assert (Hlk : seqZ 0 (numWires - 1 + 1) !! Z.to_nat row = Some row).
  { rewrite lookup_seqZ_lt by lia. f_equal. lia. }
  rewrite <- hasDisplay_testbit in Hdisp.
  destruct (scatterRows_displayed _ _ _ _ _ _ _ _ _ _ Hrun Hlk Hdisp)
    as (m' & Hm & Hout).
  rewrite take_seqZ, Z.add_0_l in Hm by lia.
  fold (displaysBefore hasDisplayMask row) in Hm.
  rewrite measured_bit, Hmeas in Hm. simpl in Hm.
  destruct (at_index rawMatrices (displaysBefore hasDisplayMask row)) as [M |];
    simpl in Hm; [| discriminate Hm].
  injection Hm as <-.
  exists M, (decohereMeasuredBitsInDensityMatrix M 1).
  split; [reflexivity | split].
  - unfold at_index. destruct (Z.ltb_spec row 0); [lia | exact Hout].
  - intros Hsq.
    rewrite !(decohere_entry M 2 1) by (assumption || lia).
    change (JS.and (JS.xor 0 1) 1 =? 0) with false.
    change (JS.and (JS.xor 1 0) 1 =? 0) with false.
    change (JS.and (JS.xor 0 0) 1 =? 0) with true.
    change (JS.and (JS.xor 1 1) 1 =? 0) with true.
    change (1 =? 0) with false. cbv iota.
    repeat split; rewrite froundEntry_single by assumption; reflexivity.
Qed.

Lemma scatterAndDecohereDensities_measured_witness :
  exists M m,
    at_index [plusDensity] (displaysBefore 2 1) = Some M
    /\ at_index [Some nanDensity;
                 Some (mkMatrix 2 2 [half; zero; zero; zero; zero; zero; half; zero])] 1
       = Some (Some m)
    /\ (Matrix.square M 2 ->
        Matrix.entry m 0 1 = (Some zero, Some zero) /\
        Matrix.entry m 1 0 = (Some zero, Some zero) /\
        Matrix.entry m 0 0 = froundEntry (Matrix.entry M 0 0) /\
        Matrix.entry m 1 1 = froundEntry (Matrix.entry M 1 1) /\
        (Matrix.singlePrecision M ->
         Matrix.entry m 0 0 = Matrix.entry M 0 0 /\
         Matrix.entry m 1 1 = Matrix.entry M 1 1)).
Proof.
  apply (scatterAndDecohereDensities_measured [plusDensity] 2 2 2);
    [reflexivity | lia | reflexivity | reflexivity].
Defined.

(** ** Decoherence, continued *)

(** The buffer of the result, for every mask: a position is zeroed when
    some loop body writes it; otherwise it holds what the argument holds
    there, through the [Float32Array] copy unless the mask is 0. *)
Lemma decohere_buffer_lookup (M : Matrix) (mask : Z) (p : nat) :
  rawBuffer (decohereMeasuredBitsInDensityMatrix M mask) !! p
  = (fun x =>
       if existsb (fun row => existsb (zeroes (width M) mask p row)
                                     (seqZ 0 (width M)))
                  (seqZ 0 (width M))
       then zero
       else if mask =? 0 then x else fround x) <$> rawBuffer M !! p.
Proof.
  unfold decohereMeasuredBitsInDensityMatrix.
  destruct (Z.eqb_spec mask 0) as [-> | Hmask].
  - assert (Hnone : existsb (fun row => existsb (zeroes (width M) 0 p row)
                                           (seqZ 0 (width M)))
                            (seqZ 0 (width M)) = false).
    { apply not_true_is_false. intros H.
      apply existsb_exists in H as (r & _ & H).
      apply existsb_exists in H as (c & _ & H).
      unfold zeroes in H. rewrite JSFacts.and_0_r in H. discriminate H. }
    rewrite Hnone. destruct (rawBuffer M !! p); reflexivity.
  - cbn [rawBuffer]. rewrite decohereAll_lookup, list_lookup_fmap.
    destruct (rawBuffer M !! p); reflexivity.
Qed.

Lemma decohere_width (M : Matrix) (mask : Z) :
  width (decohereMeasuredBitsInDensityMatrix M mask) = width M.
Proof.
  unfold decohereMeasuredBitsInDensityMatrix. destruct (mask =? 0); reflexivity.
Qed.

Lemma decohere_height (M : Matrix) (mask : Z) :
  height (decohereMeasuredBitsInDensityMatrix M mask)
  = if mask =? 0 then height M else width M.
Proof.
  unfold decohereMeasuredBitsInDensityMatrix. destruct (mask =? 0); reflexivity.
Qed.

Lemma Matrix_eq (A B : Matrix) :
  width A = width B -> height A = height B ->
  (forall p, rawBuffer A !! p = rawBuffer B !! p) ->
  A = B.
Proof.
  destruct A, B. cbn [width height rawBuffer]. intros -> -> H.
  f_equal. apply list_eq, H.
Qed.

(** X16. Decohering is idempotent and the order of two decoherences does
    not matter: for every matrix [M] and masks [m1], [m2],
    decohering by [m1] twice equals decohering by [m1] once, and
    decohering by [m1] then [m2] equals decohering by [m2] then [m1]. *)
Theorem decohere_idempotent_commutative (M : Matrix) (m1 m2 : Z) :
  decohereMeasuredBitsInDensityMatrix (decohereMeasuredBitsInDensityMatrix M m1) m1
  = decohereMeasuredBitsInDensityMatrix M m1
  /\
  decohereMeasuredBitsInDensityMatrix (decohereMeasuredBitsInDensityMatrix M m1) m2
  = decohereMeasuredBitsInDensityMatrix (decohereMeasuredBitsInDensityMatrix M m2) m1.
Proof.
  split.
  - apply Matrix_eq.
    + apply decohere_width.
    + rewrite !decohere_height, decohere_width. destruct (m1 =? 0); reflexivity.
    + intros p.
      rewrite (decohere_buffer_lookup (decohereMeasuredBitsInDensityMatrix M m1) m1 p),
              decohere_width.
      rewrite (decohere_buffer_lookup M m1 p).
      destruct (rawBuffer M !! p); simpl; [| reflexivity].
      destruct (existsb _ _); [reflexivity |].
      destruct (m1 =? 0); [reflexivity |]. rewrite fround_idempotent. reflexivity.
  - apply Matrix_eq.
    + rewrite !decohere_width. reflexivity.
    + rewrite !decohere_height, !decohere_width.
      destruct (m1 =? 0), (m2 =? 0); reflexivity.
    + intros p.
      rewrite (decohere_buffer_lookup (decohereMeasuredBitsInDensityMatrix M m1) m2 p),
              (decohere_buffer_lookup (decohereMeasuredBitsInDensityMatrix M m2) m1 p),
              !decohere_width.
      rewrite (decohere_buffer_lookup M m1 p), (decohere_buffer_lookup M m2 p).
      destruct (rawBuffer M !! p); simpl; [| reflexivity].
      do 2 destruct (existsb _ _); destruct (m1 =? 0), (m2 =? 0); reflexivity.
Qed.

(** ** Queries on a snapshot, continued *)

(** X17. Asking for a column at or beyond the last computed one is the
    same as asking for the column [Infinity]: for [wire >= 0] and
    [col >= 0] with [col >= (number of computed columns) - 1],
    [qubitDensityMatrix(wire, col)] equals
    [qubitDensityMatrix(wire, Infinity)]. *)
Theorem qubitDensityMatrix_beyond_last {Custom : Type}
    (s : CircuitStats Custom) (wire col : Z) :
  0 <= wire -> 0 <= col -> len (_qubitDensities s) - 1 <= col ->
  qubitDensityMatrix s wire (Finite col) = qubitDensityMatrix s wire Infinity.
Proof.
  intros Hw Hc Hlast. rewrite !qubitDensityMatrix_nonneg by assumption.
  unfold index_negative, index_min.
  destruct (Z.ltb_spec col 0) as [? | _]; [lia |].
  rewrite Z.min_r by lia. reflexivity.
Qed.

Lemma qubitDensityMatrix_beyond_last_witness :
  qubitDensityMatrix sampleStats 0 (Finite 7) = qubitDensityMatrix sampleStats 0 Infinity.
Proof.
  apply (qubitDensityMatrix_beyond_last sampleStats 0 7);
    [lia | lia | vm_compute; discriminate].
Defined.

(** X18. After a failed computation every query on a wire of the circuit
    answers NaN instead of throwing: on the snapshot that
    [fromCircuitAtTime] returns when the computation throws,
    [qubitDensityMatrix(wire, col)] is the all-NaN 2x2 matrix and
    [controlledWireProbabilityJustAfter(wire, col)] is NaN, for every
    [0 <= wire < numWires] and every [col] that is not negative. *)
Theorem queries_after_failure {Custom Json : Type}
    (noFallback : CircuitDefinition -> number -> completion (CircuitStats Custom))
    (toJson : CircuitDefinition -> Json)
    (circuit : CircuitDefinition) (t : number) (ex : Error) :
  noFallback circuit t = Throw ex ->
  exists s,
    snd (fromCircuitAtTime noFallback toJson circuit t) = Return s /\
    forall wire col,
      0 <= wire < numWires circuit -> index_negative col = false ->
      qubitDensityMatrix s wire col = Return (Some nanDensity) /\
      controlledWireProbabilityJustAfter s wire col = Return (Some NaN).
Proof.
  intros Hex. unfold fromCircuitAtTime. rewrite Hex.
  exists (nanStats circuit t). split; [reflexivity |].
  intros wire col Hw Hc.
  assert (Hq : qubitDensityMatrix (nanStats (Custom := Custom) circuit t) wire col
               = Return (Some nanDensity)).
  { rewrite qubitDensityMatrix_nonneg by lia. rewrite Hc.
    cbn [nanStats circuitDefinition _qubitDensities].
    destruct (Z.leb_spec (numWires circuit) wire); [lia |].
    unfold storedDensity. cbn [_qubitDensities nanStats].
    rewrite at_index_None; [reflexivity |].
    left. pose proof (index_min_bound col (len (@nil (list Matrix)) - 1)).
    unfold len in *. simpl in *. lia. }
  split; [exact Hq |].
  unfold controlledWireProbabilityJustAfter. rewrite Hq. reflexivity.
Qed.

Lemma queries_after_failure_witness :
  exists s,
    snd (fromCircuitAtTime errorInjected (fun _ => "{}")
           (mkCircuitDefinition 2 [[Some ErrorInjectionGate_id; None]]) zero)
    = Return s /\
    forall wire col,
      0 <= wire < 2 -> index_negative col = false ->
      qubitDensityMatrix s wire col = Return (Some nanDensity) /\
      controlledWireProbabilityJustAfter s wire col = Return (Some NaN).
Proof.
  apply (queries_after_failure errorInjected (fun _ => "{}")
           (mkCircuitDefinition 2 [[Some ErrorInjectionGate_id; None]]) zero
           (AppliedErrorInjectionGate 0)).
  reflexivity.
Defined.

(** X19. [controlledWireProbabilityJustAfter(wire, col)] is 0 before the
    circuit ([col < 0]) and on wires past the circuit
    ([wire >= numWires]); and on a snapshot whose stored densities are all
    2x2 it returns a number (never [undefined]) for every wire index that
    is not negative. *)
Theorem controlledWireProbabilityJustAfter_total {Custom : Type}
    (s : CircuitStats Custom) (wire : Z) (col : index) :
  0 <= wire ->
  (index_negative col = true \/ numWires (circuitDefinition s) <= wire ->
   controlledWireProbabilityJustAfter s wire col = Return (Some zero))
  /\
  (Forall (Forall (fun m => Matrix.square m 2)) (_qubitDensities s) ->
   exists p, controlledWireProbabilityJustAfter s wire col = Return (Some p)).
Proof.
  intros Hw. unfold controlledWireProbabilityJustAfter.
  rewrite qubitDensityMatrix_nonneg by assumption. split.
  - intros [Hc | Hn].
    + rewrite Hc. reflexivity.
    + destruct (Z.leb_spec (numWires (circuitDefinition s)) wire); [| lia].
      rewrite orb_true_r. reflexivity.
  - intros Hwf.
    destruct (index_negative col || (numWires (circuitDefinition s) <=? wire));
      [eexists; reflexivity |].
    unfold storedDensity.
    destruct (at_index (_qubitDensities s) _) as [row |] eqn:Hrow;
      [| eexists; reflexivity].
    simpl. destruct (at_index row wire) as [m |] eqn:Hm; [| eexists; reflexivity].
    simpl.
    assert (Hsq : Matrix.square m 2).
    { unfold at_index in Hrow, Hm.
      destruct (_ <? 0) in Hrow; [discriminate |].
      destruct (wire <? 0) in Hm; [discriminate |].
      apply list_elem_of_lookup_2 in Hrow, Hm.
      rewrite Forall_forall in Hwf. specialize (Hwf row Hrow).
      rewrite Forall_forall in Hwf. exact (Hwf m Hm). }
    destruct Hsq as (_ & _ & Hlen).
    destruct (at_index_Some (rawBuffer m) 6) as [p Hp]; [lia |].
    exists p. rewrite <- Hp. reflexivity.
Qed.

Lemma controlledWireProbabilityJustAfter_total_witness :
  controlledWireProbabilityJustAfter sampleStats 3 (Finite 0) = Return (Some zero) /\
  exists p, controlledWireProbabilityJustAfter sampleStats 0 Infinity = Return (Some p).
Proof.
  split.
  - apply (controlledWireProbabilityJustAfter_total sampleStats 3 (Finite 0)); [lia |].
    right. simpl. lia.
  - apply (controlledWireProbabilityJustAfter_total sampleStats 0 Infinity); [lia |].
    repeat constructor.
Defined.

(** ** Custom statistics *)

Lemma pretty_N_char_noColon (x : N) : pretty_N_char x <> ":"%char.
Proof. unfold pretty_N_char. repeat case_match; discriminate. Qed.

Lemma pretty_N_go_noColon (x : N) :
  forall s, noColon s -> noColon (pretty_N_go x s).
Proof.
  induction (N.lt_wf_0 x) as [x _ IH]. intros s Hs.
  destruct (N.eq_dec x 0%N) as [-> | Hx]; [exact Hs |].
  rewrite pretty_N_go_step by lia.
  apply IH; [apply N.div_lt; lia |].
  split; [apply pretty_N_char_noColon | exact Hs].
Qed.

Lemma pretty_Z_noColon (z : Z) : noColon (pretty z).
Proof.
  assert (HN : forall x : N, noColon (pretty x)).
  { intros x. unfold pretty, pretty_N. case_decide.
    - simpl. split; [discriminate | exact I].
    - apply pretty_N_go_noColon. exact I. }
  destruct z as [| q | q]; unfold pretty, pretty_Z.
  - simpl. split; [discriminate | exact I].
  - apply HN.
  - simpl. split; [discriminate | apply HN].
Qed.

(** Two strings joined by ":" determine both, when the first one holds no
    ":". *)
Lemma app_colon_inj (s1 t1 s2 t2 : string) :
  noColon s1 -> noColon t1 ->
  s1 +:+ ":" +:+ s2 = t1 +:+ ":" +:+ t2 ->
  s1 = t1 /\ s2 = t2.
Proof.
  revert t1. induction s1 as [| a s1 IH]; intros [| b t1] Hs Ht H;
    cbv [String.app String.append] in H; fold String.append in H.
  - injection H as ->. auto.
  - injection H as <- _. destruct Ht as [Ht _]. contradiction.
  - injection H as -> _. destruct Hs as [Hs _]. contradiction.
  - injection H as -> H. destruct Hs as [_ Hs], Ht as [_ Ht].
    destruct (IH t1 Hs Ht H) as [-> ->]. auto.
Qed.


Section CustomStatsFacts.
Context {Tex Raw Custom : Type}.
Variable exponentNotation : Z -> string.
Variable customStatRowsInCol : Z -> list Z.
Variable evaluateStat : Z -> Z -> Tex.
Variable readFloats : Tex -> Raw.
Variable postProcess : Z -> Z -> option Raw -> Custom.

(** Distinct slots have distinct keys. *)
Lemma slotKey_inj (col row col' row' : Z) :
  printable col -> printable row -> printable col' -> printable row' ->
  slotKey exponentNotation col row = slotKey exponentNotation col' row' ->
  col = col' /\ row = row'.
Proof.
  unfold printable, slotKey, numberToString. intros Hc Hr Hc' Hr'.
  rewrite !(proj2 (Z.ltb_lt _ _)) by assumption.
  intros H. apply app_colon_inj in H as [H1 H2]; try apply pretty_Z_noColon.
  split; eapply (inj pretty); eassumption.
Qed.

Lemma defineColumnStats_statsOf (col : Z) (rows : list Z) :
  forall ps,
    foldl (fun acc row =>
             (acc.1 ++ [mkStatSlot col row (len acc.2)],
              acc.2 ++ [evaluateStat col row]))
          (statsOf evaluateStat ps) rows
    = statsOf evaluateStat (ps ++ ((fun row => (col, row)) <$> rows)).
Proof.
  set (F := fun (acc : list StatSlot * list Tex) row =>
              (acc.1 ++ [mkStatSlot col row (len acc.2)],
               acc.2 ++ [evaluateStat col row])).
  assert (Hstep : forall ps row,
             F (statsOf evaluateStat ps) row
             = statsOf evaluateStat (ps ++ [(col, row)])).
  { intros ps row. unfold F, statsOf. cbn [fst snd].
    rewrite imap_app, fmap_app. unfold len.
    rewrite length_fmap. cbn [imap fmap list_fmap fst snd].
    rewrite Nat.add_0_r. reflexivity. }
  induction rows as [| row rows IH]; intros ps.
  - rewrite fmap_nil, app_nil_r. reflexivity.
  - rewrite fmap_cons.
    change (foldl F (statsOf evaluateStat ps) (row :: rows))
      with (foldl F (F (statsOf evaluateStat ps) row) rows).
    rewrite Hstep, IH, <- app_assoc. reflexivity.
Qed.

Lemma defineStats_statsOf (cols : list Z) :
  forall ps,
    foldl (defineColumnStats customStatRowsInCol evaluateStat)
          (statsOf evaluateStat ps) cols
    = statsOf evaluateStat
        (ps ++ (cols ≫= fun col => (fun row => (col, row)) <$> customStatRowsInCol col)).
Proof.
  induction cols as [| col cols IH]; intros ps.
  - change ([] ≫= _) with (@nil (Z * Z)). rewrite app_nil_r. reflexivity.
  - rewrite bind_cons.
    change (foldl (defineColumnStats customStatRowsInCol evaluateStat)
                  (statsOf evaluateStat ps) (col :: cols))
      with (foldl (defineColumnStats customStatRowsInCol evaluateStat)
                  (defineColumnStats customStatRowsInCol evaluateStat
                     (statsOf evaluateStat ps) col) cols).
    unfold defineColumnStats at 2. rewrite defineColumnStats_statsOf, IH.
    rewrite <- app_assoc. reflexivity.
Qed.

(** Processing the slots [ps] with their own pixels stores, under the key
    of each slot, the processed value of that slot. *)
Lemma processCustomStats_statsOf (pixels : list Raw) (ps : list (Z * Z)) :
  (forall i p, ps !! i = Some p ->
               pixels !! i = Some (readFloats (evaluateStat p.1 p.2))) ->
  forall processed : gmap string Custom,
    foldl (fun (processed : gmap string Custom) slot =>
             <[slotKey exponentNotation (slotCol slot) (slotRow slot) :=
                 postProcess (slotCol slot) (slotRow slot)
                             (at_index pixels (slotOut slot))]> processed)
          processed (imap (fun i p => mkStatSlot p.1 p.2 (Z.of_nat i)) ps)
    = foldl (fun (processed : gmap string Custom) p =>
               <[slotKey exponentNotation p.1 p.2 :=
                   postProcess p.1 p.2 (Some (readFloats (evaluateStat p.1 p.2)))]>
                 processed)
            processed ps.
Proof.
  induction ps as [| p ps IH] using rev_ind; intros Hpix processed; [reflexivity |].
  rewrite imap_app, !foldl_app. simpl.
  rewrite IH by (intros i q Hq; apply Hpix; rewrite lookup_app_l;
                 [exact Hq | apply lookup_lt_Some in Hq; exact Hq]).
  f_equal. f_equal. rewrite Nat.add_0_r.
  unfold at_index. destruct (Z.ltb_spec (Z.of_nat (length ps)) 0); [lia |].
  rewrite Nat2Z.id. apply Hpix.
  rewrite lookup_app_r, Nat.sub_diag by lia. reflexivity.
Qed.

Lemma foldl_insert_lookup (ps : list (Z * Z)) (col row : Z) :
  printable col -> printable row ->
  Forall (fun p => printable p.1 /\ printable p.2) ps ->
  forall processed : gmap string Custom,
    foldl (fun (processed : gmap string Custom) p =>
             <[slotKey exponentNotation p.1 p.2 :=
                 postProcess p.1 p.2 (Some (readFloats (evaluateStat p.1 p.2)))]>
               processed)
          processed ps !! slotKey exponentNotation col row
    = if decide ((col, row) ∈ ps)
      then Some (postProcess col row (Some (readFloats (evaluateStat col row))))
      else processed !! slotKey exponentNotation col row.
Proof.
  intros Hc Hr Hps.
  induction Hps as [| p ps [Hp1 Hp2] _ IH]; intros processed; simpl.
  - destruct (decide ((col, row) ∈ [])) as [H | _]; [inversion H | reflexivity].
  - rewrite IH. destruct (decide ((col, row) ∈ ps)) as [Hin | Hout].
    + rewrite decide_True by (right; exact Hin). reflexivity.
    + destruct (decide (p = (col, row))) as [-> | Hne].
      * rewrite decide_True by left. simpl. apply lookup_insert_eq.
      * rewrite decide_False.
        -- apply lookup_insert_ne. intros Hk.
           apply slotKey_inj in Hk as [? ?]; try assumption.
           apply Hne. destruct p; simpl in *; congruence.
        -- intros Hin. apply elem_of_cons in Hin as [Heq | Hin];
             [apply Hne; symmetry; exact Heq | exact (Hout Hin)].
Qed.

End CustomStatsFacts.

Lemma slots_elem_of (customStatRowsInCol : Z -> list Z) (numCols col row : Z) :
  (col, row) ∈ (seqZ 0 numCols ≫=
                  fun col => (fun row => (col, row)) <$> customStatRowsInCol col)
  <-> 0 <= col < numCols /\ row ∈ customStatRowsInCol col.
Proof.
  rewrite list_elem_of_bind. split.
  - intros (c & Hin & Hc). apply list_elem_of_fmap in Hin as (r & Heq & Hr).
    injection Heq as -> ->. apply elem_of_seqZ in Hc. split; [lia | exact Hr].
  - intros [Hc Hr]. exists col. split.
    + apply list_elem_of_fmap. exists row. auto.
    + apply elem_of_seqZ. lia.
Qed.

(** X20. Custom statistics are found under their own slot and nowhere
    else: on a snapshot whose custom-statistics map was filled by the
    bookkeeping of the computation for the columns [0 .. numCols-1],
    [customStatsForSlot(col, row)] is the post-processed read-out of the
    statistic evaluated for the slot ([col], [row]) itself when [row] is a
    custom-statistic row of column [col], and [undefined] for every other
    slot (the indices being small enough to print in plain digits). *)
Theorem customStatsForSlot_processed {Tex Raw Custom : Type}
    (exponentNotation : Z -> string)
    (customStatRowsInCol : Z -> list Z) (evaluateStat : Z -> Z -> Tex)
    (readFloats : Tex -> Raw) (postProcess : Z -> Z -> option Raw -> Custom)
    (s : CircuitStats Custom) (numCols col row : Z) :
  _customStatsProcessed s
  = customStatsProcessedFor exponentNotation customStatRowsInCol evaluateStat
      readFloats postProcess numCols ->
  numCols <= 10 ^ 21 ->
  (forall c r, r ∈ customStatRowsInCol c -> printable r) ->
  printable col -> printable row ->
  customStatsForSlot exponentNotation s col row
  = if decide (0 <= col < numCols /\ row ∈ customStatRowsInCol col)
    then Some (postProcess col row (Some (readFloats (evaluateStat col row))))
    else None.
Proof.
  intros Hs Hn Hrows Hc Hr. unfold customStatsForSlot. rewrite Hs.
  unfold customStatsProcessedFor, defineStats, processCustomStats. cbv zeta.
  change (@nil StatSlot, @nil Tex) with (statsOf evaluateStat []).
  rewrite defineStats_statsOf, app_nil_l.
  set (ps := seqZ 0 numCols ≫= _). unfold statsOf. cbn [fst snd].
  rewrite (processCustomStats_statsOf exponentNotation evaluateStat readFloats postProcess).
  - rewrite (foldl_insert_lookup exponentNotation evaluateStat readFloats postProcess
               ps col row Hc Hr).
    + rewrite lookup_empty.
      destruct (decide ((col, row) ∈ ps)) as [Hin | Hout];
        destruct (decide (0 <= col < numCols /\ row ∈ customStatRowsInCol col))
          as [Hslot | Hnot]; try reflexivity.
      * exfalso. apply Hnot. apply slots_elem_of. exact Hin.
      * exfalso. apply Hout. apply slots_elem_of. exact Hslot.
    + apply Forall_forall. intros [c r] Hin. apply slots_elem_of in Hin as [Hcr Hin].
      simpl. split; [unfold printable; lia | exact (Hrows c r Hin)].
  - intros i p Hp. rewrite !list_lookup_fmap, Hp. reflexivity.
Qed.

Lemma customStatsForSlot_processed_witness :
  customStatsForSlot (fun _ => "big"%string)
    (mkCircuitStats (mkCircuitDefinition 2 [[None; None]; [None; None]]) zero [] (Matrix.zero 1 4) one
       (customStatsProcessedFor (fun _ => "big"%string)
          (fun c => if c =? 1 then [0] else []) (fun c r => c + r)
          (fun t => 10 * t) (fun c r raw => raw) 2))
    1 0
  = Some (Some 10).
Proof.
  apply (customStatsForSlot_processed (fun _ => "big"%string)
           (fun c => if c =? 1 then [0] else []) (fun c r => c + r)
           (fun t => 10 * t) (fun c r raw => raw) _ 2 1 0).
  - reflexivity.
  - simpl. lia.
  - intros c r. destruct (c =? 1); intros H.
    + apply list_elem_of_singleton in H as ->. unfold printable. simpl. lia.
    + inversion H.
  - unfold printable. simpl. lia.
  - unfold printable. simpl. lia.
Defined.

(** ** The display's reading of the final state *)

Lemma shl_small (a n : Z) :
  0 <= n <= 31 -> JS.isInt32 a -> JS.isInt32 (a * 2 ^ n) -> JS.shl a n = a * 2 ^ n.
Proof.
  intros Hn Ha Hr. unfold JS.shl.
  rewrite (JSFacts.toInt32_id a Ha), JSMore.shiftCount_mod, Z.mod_small by lia.
  rewrite Z.shiftl_mul_pow2 by lia. apply JSFacts.toInt32_id, Hr.
Qed.

(** X21. The amplitude grid of the display is well formed whenever the
    snapshot has at least the displayed number of wires: with
    [n = importantWireCount()], [0 <= n <= 29], [n <= stats numWires] and
    a final state of [2^numWires] amplitudes, [_outputStateAsMatrix(stats)]
    has [2^floor(n/2)] columns and [2^ceil(n/2)] rows ([2^n] cells, as
    many rows as columns or twice as many), and its buffer is the first
    [2^n] amplitudes of the final state, exactly filling the grid. *)
Theorem outputStateAsMatrix_grid {Custom : Type} (MIN_WIRE_COUNT : Z)
    (minimumRequiredWireCount : CircuitDefinition -> Z)
    (displayed : CircuitDefinition) (stats : CircuitStats Custom) :
  let n := importantWireCount MIN_WIRE_COUNT minimumRequiredWireCount displayed in
  let M := _outputStateAsMatrix MIN_WIRE_COUNT minimumRequiredWireCount displayed stats in
  0 <= n <= 29 ->
  n <= numWires (circuitDefinition stats) ->
  len (rawBuffer (finalState stats)) = 2 ^ numWires (circuitDefinition stats) * 2 ->
  width M = 2 ^ (n / 2) /\
  height M = 2 ^ ((n + 1) / 2) /\
  width M * height M = 2 ^ n /\
  (height M = width M \/ height M = 2 * width M) /\
  rawBuffer M = take (Z.to_nat (2 ^ n * 2)) (rawBuffer (finalState stats)) /\
  len (rawBuffer M) = width M * height M * 2.
Proof.
  intros n M Hn Hle Hlen. subst M. unfold _outputStateAsMatrix. fold n. cbv zeta.
  cbn [width height rawBuffer].
  assert (Hc : 0 <= n / 2 <= 30) by (split; [apply Z.div_pos; lia | apply Z.div_le_upper_bound; lia]).
  assert (Hr : 0 <= (n + 1) / 2 <= 30) by (split; [apply Z.div_pos; lia | apply Z.div_le_upper_bound; lia]).
  rewrite !shl_1_small by assumption.
  assert (Hsum : n / 2 + (n + 1) / 2 = n) by (Z.div_mod_to_equations; lia).
  assert (Hprod : 2 ^ (n / 2) * 2 ^ ((n + 1) / 2) = 2 ^ n).
  { rewrite <- Z.pow_add_r by lia. f_equal. exact Hsum. }
  assert (Hshape : (n + 1) / 2 = n / 2 \/ (n + 1) / 2 = n / 2 + 1)
    by (Z.div_mod_to_equations; lia).
  assert (Hpn : 0 < 2 ^ n <= 2 ^ 29)
    by (split; [apply Z.pow_pos_nonneg; lia | apply Z.pow_le_mono_r; lia]).
  change (2 ^ 29) with 536870912 in Hpn.
  assert (Hbuf : (if negb (numWires (circuitDefinition stats) =? n)
                  then sliceTo (rawBuffer (finalState stats)) (JS.shl 2 n)
                  else rawBuffer (finalState stats))
                 = take (Z.to_nat (2 ^ n * 2)) (rawBuffer (finalState stats))).
  { destruct (Z.eqb_spec (numWires (circuitDefinition stats)) n) as [E | E]; simpl.
    - rewrite E in Hlen. symmetry. apply take_ge. unfold len in Hlen. lia.
    - unfold sliceTo.
      assert (Hs : JS.shl 2 n = 2 * 2 ^ n)
        by (apply shl_small; [lia | |]; unfold JS.isInt32; rewrite JSFacts.pow31; lia).
      rewrite Hs.
      destruct (Z.ltb_spec (2 * 2 ^ n) 0); [lia |].
      assert (2 ^ n <= 2 ^ numWires (circuitDefinition stats))
        by (apply Z.pow_le_mono_r; lia).
      rewrite Z.min_l by lia. f_equal. lia. }
  rewrite Hbuf.
  repeat split; try assumption; try reflexivity.
  - destruct Hshape as [-> | ->]; [left; reflexivity | right].
    rewrite Z.pow_add_r by lia. lia.
  - unfold len in *. rewrite length_take.
    assert (2 ^ n <= 2 ^ numWires (circuitDefinition stats))
      by (apply Z.pow_le_mono_r; lia).
    rewrite Hprod. lia.
Qed.

Lemma outputStateAsMatrix_grid_witness :
  rawBuffer (_outputStateAsMatrix 1 (fun _ => 0) (mkCircuitDefinition 2 [])
               (mkCircuitStats (mkCircuitDefinition 2 []) zero []
                  (mkMatrix 1 4 [one; zero; zero; zero; zero; zero; zero; zero])
                  one (∅ : gmap string unit)))
  = [one; zero; zero; zero].
Proof.
  apply (outputStateAsMatrix_grid 1 (fun _ => 0) (mkCircuitDefinition 2 [])
           (mkCircuitStats (mkCircuitDefinition 2 []) zero []
              (mkMatrix 1 4 [one; zero; zero; zero; zero; zero; zero; zero])
              one (∅ : gmap string unit)));
    [vm_compute; split; discriminate | vm_compute; discriminate | reflexivity].
Defined.

(** ** The reverse-bits gate family *)

Example reverseBitsSwaps_5 :
  reverseBitsSwaps 5 3 = [(3, 7); (4, 6)].
Proof. reflexivity. Qed.

Lemma afterSwaps_app (l1 l2 : list (Z * Z)) (w : Z) :
  afterSwaps (l1 ++ l2) w = afterSwaps l2 (afterSwaps l1 w).
Proof. unfold afterSwaps. apply foldl_app. Qed.

(** A wire that no swap names stays where it is. *)
Lemma afterSwaps_untouched (l : list (Z * Z)) (w : Z) :
  Forall (fun pair => w <> pair.1 /\ w <> pair.2) l -> afterSwaps l w = w.
Proof.
  unfold afterSwaps. induction 1 as [| pair l [H1 H2] _ IH]; simpl; [reflexivity |].
  unfold swapWires at 2.
  rewrite (proj2 (Z.eqb_neq _ _) H1), (proj2 (Z.eqb_neq _ _) H2). exact IH.
Qed.

Lemma swaps_untouched (span bit w lo n : Z) :
  (forall i, lo <= i < lo + n -> w <> bit + i /\ w <> bit + span - i - 1) ->
  afterSwaps ((fun i => (bit + i, bit + span - i - 1)) <$> seqZ lo n) w = w.
Proof.
  intros H. apply afterSwaps_untouched, Forall_fmap, Forall_seqZ.
  intros i Hi. simpl. apply H, Hi.
Qed.

(** X22. The shaders of the reverse-bits gate of span [span] placed with
    its top wire at [bit] reverse the order of the wires
    [bit .. bit+span-1] and leave every other wire alone; each swap stays
    inside the gate. *)
Theorem reverseBits_reverses (span bit wire : Z) :
  afterSwaps (reverseBitsSwaps span bit) wire
  = (if decide (bit <= wire < bit + span)
     then bit + span - 1 - (wire - bit)
     else wire)
  /\
  Forall (fun pair => bit <= pair.1 < pair.2 /\ pair.2 < bit + span)
         (reverseBitsSwaps span bit).
Proof.
  unfold reverseBitsSwaps. split.
  - set (h := span / 2).
    assert (Hh : h <= 0 \/ (0 < h /\ 2 * h <= span < 2 * h + 2))
      by (subst h; Z.div_mod_to_equations; lia).
    destruct Hh as [Hh | [Hh0 Hh]].
    { rewrite seqZ_nil by lia. simpl.
      destruct (decide (bit <= wire < bit + span)) as [Hin | _]; [| reflexivity].
      subst h. Z.div_mod_to_equations. lia. }
    set (f := fun i => (bit + i, bit + span - i - 1)).
    assert (Hsplit : forall j, 0 <= j < h ->
              f <$> seqZ 0 h
              = (f <$> seqZ 0 j) ++ [f j] ++ (f <$> seqZ (j + 1) (h - j - 1))).
    { intros j Hj. replace h with (j + (h - j)) at 1 by lia.
      rewrite seqZ_app, fmap_app by lia. f_equal.
      rewrite (seqZ_cons (0 + j)) by lia. rewrite fmap_cons. simpl.
      do 2 f_equal; f_equal; lia. }
    assert (Hone : forall j w,
              afterSwaps [f j] w
              = if w =? bit + j then bit + span - j - 1
                else if w =? bit + span - j - 1 then bit + j else w)
      by reflexivity.
    destruct (decide (bit <= wire < bit + span)) as [Hin | Hout].
    + destruct (Z_lt_le_dec (wire - bit) h) as [Hlow | Hmid].
      * rewrite (Hsplit (wire - bit)) by lia. rewrite !afterSwaps_app.
        subst f. cbv beta.
        rewrite (swaps_untouched span bit wire 0 (wire - bit)) by (intros i Hi; lia).
        rewrite Hone.
        rewrite (proj2 (Z.eqb_eq wire (bit + (wire - bit)))) by lia.
        rewrite swaps_untouched by (intros i Hi; lia). lia.
      * destruct (Z_lt_le_dec (span - 1 - (wire - bit)) h) as [Hhigh | Hmid'].
        -- rewrite (Hsplit (span - 1 - (wire - bit))) by lia. rewrite !afterSwaps_app.
           subst f. cbv beta.
           rewrite (swaps_untouched span bit wire 0 (span - 1 - (wire - bit)))
             by (intros i Hi; lia).
           rewrite Hone.
           rewrite (proj2 (Z.eqb_neq wire (bit + (span - 1 - (wire - bit))))) by lia.
           rewrite (proj2 (Z.eqb_eq wire (bit + span - (span - 1 - (wire - bit)) - 1)))
             by lia.
           rewrite swaps_untouched by (intros i Hi; lia). lia.
        -- subst f. rewrite swaps_untouched by (intros i Hi; lia). lia.
    + subst f. apply swaps_untouched. intros i Hi. lia.
  - apply Forall_fmap, Forall_seqZ. intros i Hi. simpl.
    assert (2 * (span / 2) <= span) by (Z.div_mod_to_equations; lia). lia.
Qed.

(** ** Controls: what a conjunction requires of a bit *)

(** X1. A conjunction requires of each bit what either side requires:
    when [a.and(b)] returns [ab], [ab.desiredValueFor(k)] is
    [a.desiredValueFor(k)] where that is not [null], and
    [b.desiredValueFor(k)] otherwise. *)
Theorem and_desiredValueFor (a b ab : Controls) (k : Z) :
  Controls.and a b = Return ab ->
  Controls.desiredValueFor ab k
  = match Controls.desiredValueFor a k with
    | Some v => Some v
    | None => Controls.desiredValueFor b k
    end.
Proof.
  intros Hand. apply ControlsFacts.and_inv in Hand as (E & -> & Hinv).
  unfold Controls.invariant in Hinv. cbn [inclusionMask desiredValueMask] in Hinv.
  pose proof (Z.mod_pos_bound k 32 eq_refl) as Hm.
  assert (Hk : 0 <= k mod 32 <= 31) by lia.
  revert E Hinv. repeat js_eq_bits. intros E Hinv.
  specialize (E (k mod 32) Hk). specialize (Hinv (k mod 32) Hk).
  revert E Hinv. js_bits Hk.
  unfold Controls.desiredValueFor. cbn [inclusionMask desiredValueMask].
  rewrite !JSMore.and_shl_eqb. js_bits Hk.
  destruct (Z.testbit (desiredValueMask a) (k mod 32)),
    (Z.testbit (desiredValueMask b) (k mod 32)),
    (Z.testbit (inclusionMask a) (k mod 32)),
    (Z.testbit (inclusionMask b) (k mod 32)); simpl; intros; congruence.
Qed.

Lemma and_desiredValueFor_witness :
  Controls.desiredValueFor (mkControls 7 3) 1 = Some true.
Proof.
  apply (and_desiredValueFor (mkControls 5 1) (mkControls 6 2) (mkControls 7 3) 1).
  reflexivity.
Defined.
